(** * Click_Record: the click-recording service and its polling client

    The repository is the walkthrough of [readme.md] (which carries the final
    [server.js]: the connection code of Part 3 followed by the two routes of
    Parts 4 and 5) together with the browser script [client.js].

    Both programs are callback driven.  Each is embedded as a deterministic
    state machine: a handler runs when its event arrives (a request, the
    completion of a store operation, a timer firing, the settling of a
    [fetch] promise) and the state records what the program has done so
    far: what it has printed, which callbacks are still waiting, which
    responses went out.  What the environment decides (the clock, whether a
    store operation fails, what a response carries) is an argument of the event. *)

From stdpp Require Import base gmap list strings.
From Stdlib Require Import ZArith DecimalString.

Open Scope Z_scope.

(** ** Shared JavaScript values *)

(** A [Date], as milliseconds since the epoch. *)
Definition Date := Z.

(** A JavaScript [Error] object, by its message. *)
Record Err := { message : string }.

#[global] Instance Err_eq_dec : EqDecision Err.
Proof. solve_decision. Defined.

(** The [err] argument of a Node-style callback: [null] or an error. *)
Inductive Outcome :=
| Done
| Failed (err : Err).

(** Decimal rendering of an integer, as [String(n)] gives it. *)
Definition decimal (n : Z) : string := NilZero.string_of_int (Z.to_int n).

(** ** The document store (MongoDB driver 2.2, the operations the server calls) *)

Module Mongo.

Definition ObjectId := nat.

(** A document of the [clicks] collection.  The object literal the server
    builds has no [_id]; a stored document has the one the insert gave it. *)
Record Document := { _id : option ObjectId; clickTime : Date }.

#[global] Instance Document_eq_dec : EqDecision Document.
Proof. solve_decision. Defined.

(** The database: its named collections, each in insertion order, and the
    source of fresh object identifiers. *)
Record Store := {
  collections : gmap string (list Document);
  next_oid : ObjectId
}.

(** [db.collection(name)]: a collection that was never written is empty. *)
Definition collection (name : string) (st : Store) : list Document :=
  default [] (collections st !! name).

(** [find().toArray]: every document of the collection. *)
Definition find (name : string) (st : Store) : list Document :=
  collection name st.

(** [insertOne]: the document is appended under a fresh [_id]. *)
Definition insert (name : string) (doc : Document) (st : Store) : Store :=
  {| collections :=
       <[name := collection name st
                   ++ [ {| _id := Some (next_oid st); clickTime := clickTime doc |} ]]>
         (collections st);
     next_oid := S (next_oid st) |}.

(** Replace the first document carrying identifier [i], if there is one. *)
Fixpoint replace_by_id (i : ObjectId) (doc : Document) (l : list Document)
  : option (list Document) :=
  match l with
  | [] => None
  | x :: l' =>
      if decide (_id x = Some i) then Some (doc :: l')
      else (x ::.) <$> replace_by_id i doc l'
  end.

(** [save(doc)]: with an [_id] it is an update with [upsert], without one
    it is an insert. *)
Definition save (name : string) (doc : Document) (st : Store) : Store :=
  match _id doc with
  | Some i =>
      {| collections :=
           <[name := default (collection name st ++ [doc])
                             (replace_by_id i doc (collection name st))]>
             (collections st);
         next_oid := next_oid st |}
  | None => insert name doc st
  end.

End Mongo.

(** ** server.js *)

Module Server.
Import Mongo.

(** What a client sends.  Neither route reads any of it; Express does,
    when a route answers a GET through [res.send]: it tags the body it is
    about to send and compares the tag with the validators of the request
    (If-None-Match, If-Modified-Since, Cache-Control).  [fresh] is that
    verdict, [req.fresh], as a function of the sequence about to be sent:
    constantly [false] for a request without validators, constantly [true]
    for [If-None-Match: *], and for a request quoting the tag of one
    sequence, [true] on that sequence.  [headers] are the other headers. *)
Record Request := {
  headers : list (string * string);
  payload : string;
  fresh : list Document → bool
}.

Inductive Body :=
| Text (s : string)
| Json (docs : list Document).

Record Response := { status : Z; body : Body }.

#[global] Instance Body_eq_dec : EqDecision Body.
Proof. solve_decision. Defined.

#[global] Instance Response_eq_dec : EqDecision Response.
Proof. solve_decision. Defined.

(** The handle [MongoClient.connect] passes to its callback. *)
Inductive Db := Database.

(** One [console.log] call. *)
Inductive LogLine :=
| LogStr (s : string)
| LogDoc (d : Document)
| LogDb (d : option Db)
| LogErr (e : Err).

(** A callback handed to the driver and not yet called; each closes over
    the [res] of its request. *)
Inductive Pending :=
| SaveCb (click : Document)
| ToArrayCb (req : Request).

Record State := {
  db : option Db;                  (* let db; *)
  connecting : bool;               (* connect issued, callback not yet run *)
  listening : bool;                (* app.listen(8080) was called *)
  pending : gmap nat Pending;      (* by request number *)
  next_req : nat;                  (* requests accepted so far *)
  sent : list (nat * Response);    (* responses written, oldest first *)
  console : list LogLine
}.

Definition log (l : LogLine) (s : State) : State :=
  {| db := db s; connecting := connecting s; listening := listening s;
     pending := pending s; next_req := next_req s; sent := sent s;
     console := console s ++ [l] |}.

Definition set_db (d : option Db) (s : State) : State :=
  {| db := d; connecting := connecting s; listening := listening s;
     pending := pending s; next_req := next_req s; sent := sent s;
     console := console s |}.

Definition set_connecting (b : bool) (s : State) : State :=
  {| db := db s; connecting := b; listening := listening s;
     pending := pending s; next_req := next_req s; sent := sent s;
     console := console s |}.

Definition listen (s : State) : State :=
  {| db := db s; connecting := connecting s; listening := true;
     pending := pending s; next_req := next_req s; sent := sent s;
     console := console s |}.

(** A request reaches its route: it gets the next request number. *)
Definition accept (s : State) : State :=
  {| db := db s; connecting := connecting s; listening := listening s;
     pending := pending s; next_req := S (next_req s); sent := sent s;
     console := console s |}.

(** The route returns with its callback registered at the driver. *)
Definition await (rid : nat) (p : Pending) (s : State) : State :=
  {| db := db s; connecting := connecting s; listening := listening s;
     pending := <[rid := p]> (pending s); next_req := next_req s;
     sent := sent s; console := console s |}.

(** The driver calls the callback of request [rid], once. *)
Definition settle (rid : nat) (s : State) : State :=
  {| db := db s; connecting := connecting s; listening := listening s;
     pending := delete rid (pending s); next_req := next_req s;
     sent := sent s; console := console s |}.

(** A response is written on the [res] of request [rid]. *)
Definition respond (rid : nat) (r : Response) (s : State) : State :=
  {| db := db s; connecting := connecting s; listening := listening s;
     pending := pending s; next_req := next_req s;
     sent := sent s ++ [(rid, r)]; console := console s |}.

(** *** Express *)

(** The reason phrases Express looks a status code up in; of its table,
    the entries for the codes that can occur in this server. *)
Definition status_message (code : Z) : option string :=
  if code =? 200 then Some "OK"
  else if code =? 201 then Some "Created"
  else if code =? 404 then Some "Not Found"
  else if code =? 500 then Some "Internal Server Error"
  else None.

(** [res.sendStatus(code)]: the status is set and its reason phrase (or,
    for a code without one, its decimal form) is sent as the text body. *)
Definition sendStatus (code : Z) : Response :=
  {| status := code; body := Text (default (decimal code) (status_message code)) |}.

(** [res.send(result)] for an array, on the [res] of the GET request [req]:
    status 200 and the array as JSON, unless the request is fresh for it:
    then the status is 304 and nothing is sent as the body. *)
Definition send (req : Request) (result : list Document) : Response :=
  if fresh req result
  then {| status := 304; body := Text EmptyString |}
  else {| status := 200; body := Json result |}.

(** An exception thrown while a route runs is caught by the router, whose
    final handler answers 500 with a page made from the error; of that page
    the message is kept. *)
Definition uncaught (e : Err) : Response :=
  {| status := 500; body := Text (message e) |}.

Definition db_undefined : Err :=
  {| message := "TypeError: Cannot read property 'collection' of undefined" |}.

(** *** The program *)

(** The callback of [MongoClient.connect(url, (err, database) => ...)]. *)
Definition connect_callback (r : Outcome) (s : State) : State :=
  match r with
  | Failed err => log (LogErr err) s
  | Done => log (LogStr "listening on 8080") (listen (set_db (Some Database) s))
  end.

(** [app.post('/clicked', (req, res) => ...)], up to the call of [save]. *)
Definition post_clicked (req : Request) (now : Date) (s : State) : State :=
  let rid := next_req s in
  let click := {| _id := None; clickTime := now |} in
  let s := log (LogDb (db s)) (log (LogDoc click) (accept s)) in
  match db s with
  | Some _ => await rid (SaveCb click) s
  | None => respond rid (uncaught db_undefined) s
  end.

(** The callback [(err, result) => ...] given to [save]. *)
Definition save_callback (rid : nat) (r : Outcome) (s : State) : State :=
  match r with
  | Failed err => log (LogErr err) s
  | Done => respond rid (sendStatus 201) (log (LogStr "click added to db") s)
  end.

(** [app.get('/clicks', (req, res) => ...)], up to the call of [toArray]. *)
Definition get_clicks (req : Request) (s : State) : State :=
  let rid := next_req s in
  let s := accept s in
  match db s with
  | Some _ => await rid (ToArrayCb req) s
  | None => respond rid (uncaught db_undefined) s
  end.

(** The callback [(err, result) => ...] given to [toArray] by the route
    that handles [req]. *)
Definition toArray_callback (rid : nat) (req : Request) (r : Outcome)
    (result : list Document) (s : State) : State :=
  match r with
  | Failed err => log (LogErr err) s
  | Done => respond rid (send req result) s
  end.

(** *** The server process and the store it talks to *)

Record World := { server : State; store : Store }.

Inductive Event :=
| ConnectDone (r : Outcome)                  (* the connection attempt ends *)
| PostClicked (req : Request) (now : Date)   (* POST /clicked arrives; the clock reads [now] *)
| GetClicks (req : Request)                  (* GET /clicks arrives *)
| StoreDone (rid : nat) (r : Outcome).       (* the store operation of request [rid] ends *)

(** The script as it starts: it has printed its banner and asked for the
    connection; [db] is still undefined and nobody listens. *)
Definition boot (st : Store) : World :=
  {| server := {| db := None; connecting := true; listening := false;
                  pending := ∅; next_req := 0; sent := [];
                  console := [LogStr "Server-side code running"] |};
     store := st |}.

(** One turn of the event loop, for the connection and the two routes that
    use the store (the static files and the homepage are not part of this
    machine).  A request meets a route only while the server listens.  A
    store operation that fails leaves the store as it was.  One that
    succeeds has taken effect in the store by the time its callback is
    called; the machine lets it take effect at that moment. *)
Definition step (e : Event) (w : World) : World :=
  let s := server w in
  match e with
  | ConnectDone r =>
      if connecting s
      then {| server := connect_callback r (set_connecting false s); store := store w |}
      else w
  | PostClicked req now =>
      if listening s
      then {| server := post_clicked req now s; store := store w |}
      else w
  | GetClicks req =>
      if listening s
      then {| server := get_clicks req s; store := store w |}
      else w
  | StoreDone rid r =>
      match pending s !! rid with
      | Some (SaveCb click) =>
          {| server := save_callback rid r (settle rid s);
             store := match r with
                      | Done => save "clicks" click (store w)
                      | Failed _ => store w
                      end |}
      | Some (ToArrayCb req) =>
          {| server := toArray_callback rid req r (find "clicks" (store w)) (settle rid s);
             store := store w |}
      | None => w
      end
  end.

(** A run: the events in the order the loop sees them. *)
Definition run (tr : list Event) (w : World) : World :=
  foldl (fun w e => step e w) w tr.

Definition empty_store : Store := {| collections := ∅; next_oid := 0%nat |}.

(** The response written for request [rid], if any. *)
Definition response_of (rid : nat) (w : World) : option Response :=
  snd <$> List.find (fun p => bool_decide (fst p = rid)) (sent (server w)).

(** How many requests were answered 201 so far. *)
Definition created (w : World) : nat :=
  length (filter (fun p => status (snd p) = 201) (sent (server w))).

Definition clicks (w : World) : list Document := collection "clicks" (store w).

(** What holds of the server in every state a run from [boot] reaches. *)
Record Inv (w : World) : Prop := {
  inv_listen : listening (server w) = true →
               db (server w) = Some Database ∧ connecting (server w) = false;
  inv_idle : listening (server w) = false →
             sent (server w) = [] ∧ pending (server w) = ∅;
  inv_pending : ∀ rid p, pending (server w) !! rid = Some p →
                (rid < next_req (server w))%nat;
  inv_sent : ∀ rid r, (rid, r) ∈ sent (server w) →
             (rid < next_req (server w))%nat ∧ pending (server w) !! rid = None;
  inv_click : ∀ rid click, pending (server w) !! rid = Some (SaveCb click) →
              _id click = None;
  inv_once : NoDup (sent (server w)).*1
}.

(** Request [rid] reached its route, no callback is waiting on its behalf
    and nothing was written on its [res]. *)
Definition abandoned (rid : nat) (w : World) : Prop :=
  (rid < next_req (server w))%nat
  ∧ pending (server w) !! rid = None
  ∧ rid ∉ (sent (server w)).*1.

(** A server that neither listens nor waits for its connection is inert. *)
Definition dead (w : World) : Prop :=
  connecting (server w) = false ∧ listening (server w) = false
  ∧ pending (server w) = ∅.

(** Sequential successful calls of POST /clicked, one per clock reading,
    the first of them being request number [rid]. *)
Fixpoint posts (req : Request) (nows : list Date) (rid : nat) : list Event :=
  match nows with
  | [] => []
  | now :: nows' =>
      PostClicked req now :: StoreDone rid Done :: posts req nows' (S rid)
  end.

(** No pending insert: every POST /clicked that met its route has had its
    callback called. *)
Definition no_insert_in_flight (w : World) : Prop :=
  ∀ rid click, pending (server w) !! rid ≠ Some (SaveCb click).

(** Sample values for the scenarios. *)
Definition bare : Request :=
  {| headers := []; payload := EmptyString; fresh := fun _ => false |}.
Definition forged : Request :=
  {| headers := [("content-type", "application/x-www-form-urlencoded")];
     payload := "clickTime=1970-01-01T00:00:00.000Z";
     fresh := fun _ => false |}.
(** A GET that carries [If-None-Match: *]. *)
Definition revalidating : Request :=
  {| headers := []; payload := EmptyString; fresh := fun _ => true |}.
Definition boom : Err := {| message := "MongoError: topology was destroyed" |}.

End Server.

(** ** client.js *)

Module Client.

(** What [response.json()] resolves to.  Numbers are kept to the integers. *)
#[warnings="-register-all"] Inductive Json :=
| JNull
| JBool (b : bool)
| JNum (n : Z)
| JStr (s : string)
| JArr (items : list Json)
| JObj (fields : list (string * Json)).

(** The value of an expression: [undefined], a thrown error, or a value. *)
Inductive Value :=
| Undefined
| Throws (e : Err)
| Val (j : Json).

Definition null_has_no_properties : Err :=
  {| message := "TypeError: Cannot read property 'length' of null" |}.
Definition null_element : Err :=
  {| message := "TypeError: Cannot set property 'innerHTML' of null" |}.
Definition request_failed : Err := {| message := "Error: Request failed." |}.

(** The last field of that name, as [JSON.parse] keeps it. *)
Fixpoint field (name : string) (fields : list (string * Json)) : option Json :=
  match fields with
  | [] => None
  | (k, v) :: rest =>
      match field name rest with
      | Some v' => Some v'
      | None => if decide (k = name) then Some v else None
      end
  end.

(** [data.length]; a string counts its characters, which are taken to be
    ASCII. *)
Definition length_of (data : Json) : Value :=
  match data with
  | JNull => Throws null_has_no_properties
  | JArr items => Val (JNum (Z.of_nat (length items)))
  | JStr s => Val (JNum (Z.of_nat (String.length s)))
  | JObj fields => from_option Val Undefined (field "length" fields)
  | JBool _ | JNum _ => Undefined
  end.

Fixpoint join (sep : string) (parts : list string) : string :=
  match parts with
  | [] => EmptyString
  | [x] => x
  | x :: rest => x +:+ sep +:+ join sep rest
  end.

(** The string a value turns into inside a template literal. *)
Fixpoint to_string (j : Json) : string :=
  match j with
  | JNull => "null"
  | JBool b => if b then "true" else "false"
  | JNum n => decimal n
  | JStr s => s
  | JArr items =>
      join "," (List.map (fun x => match x with
                                   | JNull => EmptyString
                                   | _ => to_string x
                                   end) items)
  | JObj _ => "[object Object]"
  end.

(** The template literal [`Button was clicked ${v} times`]; [v] is not an error. *)
Definition counter_text (v : Value) : string :=
  "Button was clicked "
  +:+ match v with
      | Val j => to_string j
      | _ => "undefined"
      end
  +:+ " times".

(** One [fetch] call. *)
Record Fetch := { url : string; method : string }.

#[global] Instance Fetch_eq_dec : EqDecision Fetch.
Proof. solve_decision. Defined.

(** What [response.json()] does with the body. *)
Inductive BodyJson :=
| Unparsable (e : Err)
| Parsed (data : Json).

(** How the promise [fetch] returned settles. *)
Inductive FetchResult :=
| NetworkError (e : Err)                        (* it rejects *)
| Responded (status : Z) (body : BodyJson).     (* it resolves to a response *)

(** [response.ok] *)
Definition ok (status : Z) : bool := (200 <=? status) && (status <=? 299).

(** The [then]/[catch] chain hanging on a fetch. *)
Inductive Chain :=
| Clicked      (* of the click listener *)
| Clicks.      (* of the poll *)

Inductive LogLine :=
| LogStr (s : string)
| LogErr (e : Err).

Record State := {
  document : gmap string string;   (* innerHTML of the elements, by id *)
  console : list LogLine;
  clickable : bool;                (* the listener on #myButton is registered *)
  interval : option Z;             (* delay of the timer setInterval registered *)
  next_fire : Z;                   (* when that timer fires next, ms after load *)
  fired : list Z;                  (* when it fired so far *)
  inflight : gmap nat Chain;       (* fetches not yet settled *)
  next_fetch : nat;
  fetched : list Fetch             (* every fetch call, oldest first *)
}.

Definition log (l : LogLine) (s : State) : State :=
  {| document := document s; console := console s ++ [l];
     clickable := clickable s; interval := interval s;
     next_fire := next_fire s; fired := fired s; inflight := inflight s;
     next_fetch := next_fetch s; fetched := fetched s |}.

(** [fetch(url, {method})] with the chain [c] attached to its promise. *)
Definition fetch (f : Fetch) (c : Chain) (s : State) : State :=
  {| document := document s; console := console s;
     clickable := clickable s; interval := interval s;
     next_fire := next_fire s; fired := fired s;
     inflight := <[next_fetch s := c]> (inflight s);
     next_fetch := S (next_fetch s); fetched := fetched s ++ [f] |}.

Definition settle (fid : nat) (s : State) : State :=
  {| document := document s; console := console s;
     clickable := clickable s; interval := interval s;
     next_fire := next_fire s; fired := fired s;
     inflight := delete fid (inflight s);
     next_fetch := next_fetch s; fetched := fetched s |}.

(** [document.getElementById(id).innerHTML = text], the element being
    there.  The page is kept as the content of its elements by id and the
    text is taken as the new content as it is: that is what the assignment
    does for a text without markup, such as the one a number or
    [undefined] gives, and for an element that holds no other element. *)
Definition set_innerHTML (id text : string) (s : State) : State :=
  {| document := <[id := text]> (document s); console := console s;
     clickable := clickable s; interval := interval s;
     next_fire := next_fire s; fired := fired s; inflight := inflight s;
     next_fetch := next_fetch s; fetched := fetched s |}.

(** The timer fires: it is armed again one delay later. *)
Definition rearm (delay : Z) (s : State) : State :=
  {| document := document s; console := console s;
     clickable := clickable s; interval := interval s;
     next_fire := next_fire s + delay; fired := fired s ++ [next_fire s];
     inflight := inflight s; next_fetch := next_fetch s; fetched := fetched s |}.

(** The listener of [button.addEventListener('click', ...)]. *)
Definition click_listener (s : State) : State :=
  fetch {| url := "/clicked"; method := "POST" |} Clicked
    (log (LogStr "button was clicked") s).

(** Its chain: [.then(response => ...).catch(error => ...)]. *)
Definition clicked_chain (r : FetchResult) (s : State) : State :=
  match r with
  | NetworkError e => log (LogErr e) s
  | Responded status _ =>
      if ok status then log (LogStr "click was recorded") s
      else log (LogErr request_failed) s
  end.

(** The function given to [setInterval]. *)
Definition poll (s : State) : State :=
  fetch {| url := "/clicks"; method := "GET" |} Clicks s.

(** Its chain: [.then(response => ...).then(data => ...).catch(error => ...)].
    In the assignment the template literal, and with it [data.length], is
    evaluated before the value is put on the element. *)
Definition clicks_chain (r : FetchResult) (s : State) : State :=
  match r with
  | NetworkError e => log (LogErr e) s
  | Responded status body =>
      if ok status then
        match body with
        | Unparsable e => log (LogErr e) s
        | Parsed data =>
            match length_of data with
            | Throws e => log (LogErr e) s
            | v =>
                match document s !! "counter" with
                | None => log (LogErr null_element) s
                | Some _ => set_innerHTML "counter" (counter_text v) s
                end
            end
        end
      else log (LogErr request_failed) s
  end.

(** The script runs once over the loaded page.  Without [#myButton] the
    second statement throws and nothing after it is reached. *)
Definition load (page : gmap string string) : State :=
  let s := {| document := page; console := [LogStr "Client-side code running"];
              clickable := false; interval := None; next_fire := 0; fired := [];
              inflight := ∅; next_fetch := 0; fetched := [] |} in
  match page !! "myButton" with
  | None => s
  | Some _ =>
      {| document := page; console := console s;
         clickable := true; interval := Some 1000; next_fire := 1000;
         fired := []; inflight := ∅; next_fetch := 0; fetched := [] |}
  end.

(** The elements of [index.html] that carry an id. *)
Definition index_html : gmap string string :=
  <["counter" := "Loading button click data."]> (<["myButton" := "Click me!"]> ∅).

Inductive Event :=
| Click                                      (* the user clicks the button *)
| Tick                                       (* the interval timer fires *)
| Settled (fid : nat) (r : FetchResult).     (* the promise of fetch [fid] settles *)

Definition step (e : Event) (s : State) : State :=
  match e with
  | Click => if clickable s then click_listener s else s
  | Tick =>
      match interval s with
      | Some delay => poll (rearm delay s)
      | None => s
      end
  | Settled fid r =>
      match inflight s !! fid with
      | Some Clicked => clicked_chain r (settle fid s)
      | Some Clicks => clicks_chain r (settle fid s)
      | None => s
      end
  end.

Definition run (tr : list Event) (s : State) : State :=
  foldl (fun s e => step e s) s tr.

(** The text the page shows in its counter paragraph. *)
Definition counter (s : State) : option string := document s !! "counter".

(** A poll that failed: the fetch was rejected, the status is not a 2xx,
    or the body is not JSON. *)
Definition failed (r : FetchResult) : bool :=
  match r with
  | NetworkError _ => true
  | Responded status (Unparsable _) => true
  | Responded status (Parsed _) => negb (ok status)
  end.

(** The error such a poll ends in the [catch] with. *)
Definition failure (r : FetchResult) : Err :=
  match r with
  | NetworkError e => e
  | Responded status body =>
      if ok status then
        match body with
        | Unparsable e => e
        | Parsed _ => request_failed
        end
      else request_failed
  end.

(** How often the timer fired in a run. *)
Fixpoint ticks (tr : list Event) : nat :=
  match tr with
  | [] => 0
  | Tick :: tr' => S (ticks tr')
  | _ :: tr' => ticks tr'
  end.

(** The instants [delay], [2 * delay], ..., [n * delay]. *)
Definition cadence (delay : Z) (n : nat) : list Z :=
  List.map (fun k => delay * Z.of_nat (S k)) (seq 0 n).

Definition poll_fetch : Fetch := {| url := "/clicks"; method := "GET" |}.

(** How many of the fetch calls were polls. *)
Definition polls (s : State) : nat :=
  length (filter (fun f => f = poll_fetch) (fetched s)).

(** What holds of the script in every state that a run reaches from a
    page with both elements. *)
Record Steady (s : State) : Prop := {
  inv_interval : interval s = Some 1000;
  inv_clickable : clickable s = true;
  inv_counter : is_Some (document s !! "counter");
  inv_next_fire : next_fire s = 1000 * Z.of_nat (S (length (fired s)));
  inv_inflight : ∀ fid c, inflight s !! fid = Some c → (fid < next_fetch s)%nat
}.

(** Sample values for the scenarios. *)
Definition offline : Err := {| message := "TypeError: Failed to fetch" |}.
Definition not_json : Err :=
  {| message := "SyntaxError: Unexpected token < in JSON at position 0" |}.
Definition a_click : Json := JObj [("clickTime", JStr "2017-11-20T10:00:00.000Z")].

End Client.

(** ** What a run leaves to observe *)

Module Observed.
Import Mongo.

(** The errors the server printed. *)
Definition is_error (l : Server.LogLine) : bool :=
  match l with
  | Server.LogErr _ => true
  | _ => false
  end.

Definition errors (w : Server.World) : nat :=
  length (List.filter is_error (Server.console (Server.server w))).

(** What the counters of the server add up to. *)
Definition balanced (w : Server.World) : Prop :=
  if Server.listening (Server.server w)
  then Server.next_req (Server.server w)
       = (size (Server.pending (Server.server w))
          + length (Server.sent (Server.server w)) + errors w)%nat
  else Server.next_req (Server.server w) = 0%nat
       ∧ errors w = if Server.connecting (Server.server w) then 0%nat else 1%nat.

(** The clock readings of the POST /clicked requests of a run. *)
Fixpoint readings (tr : list Server.Event) : list Date :=
  match tr with
  | [] => []
  | Server.PostClicked _ now :: tr' => now :: readings tr'
  | _ :: tr' => readings tr'
  end.

(** The error a settled poll ends in the [catch] with on a page that has
    no counter paragraph. *)
Definition caught_without_counter (r : Client.FetchResult) : Err :=
  if Client.failed r then Client.failure r
  else match r with
       | Client.Responded _ (Client.Parsed data) =>
           match Client.length_of data with
           | Client.Throws e => e
           | _ => Client.null_element
           end
       | _ => Client.null_element
       end.

(** The fetch of the click listener. *)
Definition click_fetch : Client.Fetch :=
  {| Client.url := "/clicked"; Client.method := "POST" |}.

(** How many of the fetch calls were clicks. *)
Definition posted (s : Client.State) : nat :=
  length (filter (fun f => f = click_fetch) (Client.fetched s)).

(** How often the button was clicked in a run. *)
Fixpoint presses (tr : list Client.Event) : nat :=
  match tr with
  | [] => 0
  | Client.Click :: tr' => S (presses tr')
  | _ :: tr' => presses tr'
  end.

End Observed.

(** ** The wire between server and client *)

Module Link.

Section Wire.

(** What [JSON.parse] makes of a text body, and what a stored document
    looks like once it went through [JSON.stringify] and [JSON.parse]. *)
Variable parse : string → Client.BodyJson.
Variable render : Mongo.Document → Client.Json.

(** A response of the server as the promise of [fetch] delivers it, with
    what [response.json()] would give: an array body arrives as an array
    with one element per document. *)
Definition wire (r : Server.Response) : Client.FetchResult :=
  match Server.body r with
  | Server.Text t => Client.Responded (Server.status r) (parse t)
  | Server.Json docs =>
      Client.Responded (Server.status r) (Client.Parsed (Client.JArr (render <$> docs)))
  end.

End Wire.

(** Sample values for the scenarios. *)
Definition no_json (t : string) : Client.BodyJson := Client.Unparsable Client.not_json.
Definition as_object (d : Mongo.Document) : Client.Json :=
  Client.JObj [("clickTime", Client.JNum (Mongo.clickTime d))].

End Link.

(** ** Properties of the server *)

Module ServerSpec.
Import Mongo Server.

Lemma run_snoc tr e w : run (tr ++ [e]) w = step e (run tr w).
Proof. unfold run. by rewrite foldl_app. Qed.

Lemma run_app tr1 tr2 w : run (tr1 ++ tr2) w = run tr2 (run tr1 w).
Proof. unfold run. by rewrite foldl_app. Qed.

Lemma run_cons e tr w : run (e :: tr) w = run tr (step e w).
Proof. reflexivity. Qed.

Lemma Inv_boot st : Inv (boot st).
Proof.
  split; simpl.
  - done.
  - done.
  - intros rid p. by rewrite lookup_empty.
  - intros rid r H. inversion H.
  - intros rid c. by rewrite lookup_empty.
  - constructor.
Qed.

(** A request whose callback is still pending has not been answered. *)
Lemma pending_unanswered w rid p :
  Inv w → pending (server w) !! rid = Some p → rid ∉ (sent (server w)).*1.
Proof.
  intros HI Hp Hin. apply list_elem_of_fmap in Hin as [[rid' r] [-> Hin]].
  apply (inv_sent _ HI) in Hin as [_ Hnone]. simpl in *. congruence.
Qed.

(** The two ways a store callback leaves the server: it only logs, or it
    logs and answers its request. *)
Lemma Inv_settled w rid p st' (s' : State) :
  Inv w → pending (server w) !! rid = Some p →
  db s' = db (server w) → connecting s' = connecting (server w) →
  listening s' = listening (server w) → next_req s' = next_req (server w) →
  pending s' = delete rid (pending (server w)) →
  (sent s' = sent (server w) ∨ ∃ r, sent s' = sent (server w) ++ [(rid, r)]) →
  Inv {| server := s'; store := st' |}.
Proof.
  intros HI Hlk Hdb Hcon Hlis Hnext Hpend Hsent.
  pose proof (pending_unanswered _ _ _ HI Hlk) as Hfresh.
  destruct HI as [Hl Hi Hp Hs Hc Hn].
  assert (Hon : listening (server w) = true).
  { destruct (listening (server w)) eqn:E; [done |].
    destruct (Hi eq_refl) as [_ He]. rewrite He, lookup_empty in Hlk. done. }
  split; simpl; rewrite ?Hdb, ?Hcon, ?Hlis, ?Hnext, ?Hpend.
  - done.
  - rewrite Hon. done.
  - intros rid' p'. rewrite lookup_delete_Some. intros [_ Hlk']. by eapply Hp.
  - intros rid' r' Hin.
    destruct Hsent as [E | [r E]]; rewrite E in Hin.
    + destruct (Hs _ _ Hin) as [Hlt Hnone]. split; [done |].
      rewrite lookup_delete_None. by right.
    + apply elem_of_app in Hin as [Hin | Hin].
      * destruct (Hs _ _ Hin) as [Hlt Hnone]. split; [done |].
        rewrite lookup_delete_None. by right.
      * apply list_elem_of_singleton in Hin as [= -> ->].
        split; [by eapply Hp | apply lookup_delete_eq].
  - intros rid' c. rewrite lookup_delete_Some. intros [_ Hlk']. by eapply Hc.
  - destruct Hsent as [-> | [r ->]]; [done |].
    rewrite fmap_app. apply NoDup_app. split; [done |]. split.
    + intros x Hx Hx'. apply list_elem_of_singleton in Hx'. simpl in Hx'. by subst.
    + apply NoDup_singleton.
Qed.

Lemma Inv_step e w : Inv w → Inv (step e w).
Proof.
  destruct w as [s st]. intros HI. destruct HI as [Hl Hi Hp Hs Hc Hn] eqn:HIeq.
  clear HIeq. simpl in *.
  destruct e as [r | req now | req | rid r]; unfold step; simpl.
  - destruct (connecting s) eqn:Hcon; [| exact HI].
    destruct (listening s) eqn:Hlis; [destruct (Hl eq_refl); congruence |].
    destruct (Hi eq_refl) as [Hsent Hpend].
    destruct r as [| err]; split; simpl; rewrite ?Hlis, ?Hsent, ?Hpend; try done.
    all: try (intros ? ?; by rewrite lookup_empty).
    all: try (intros ? ? H; inversion H).
    all: try constructor.
  - destruct (listening s) eqn:Hlis; [| exact HI].
    destruct (Hl eq_refl) as [Hdb Hcon].
    unfold post_clicked. simpl. rewrite Hdb.
    split; simpl; rewrite ?Hlis; try done.
    + intros rid p. rewrite lookup_insert. case_decide; [lia |].
      intros Hlk. apply Hp in Hlk. lia.
    + intros rid r Hin. destruct (Hs _ _ Hin) as [Hlt Hnone]. split; [lia |].
      rewrite lookup_insert_ne; [done | lia].
    + intros rid c. rewrite lookup_insert. case_decide.
      * intros [= <-]. done.
      * apply Hc.
  - destruct (listening s) eqn:Hlis; [| exact HI].
    destruct (Hl eq_refl) as [Hdb Hcon].
    unfold get_clicks. simpl. rewrite Hdb.
    split; simpl; rewrite ?Hlis; try done.
    + intros rid p. rewrite lookup_insert. case_decide; [lia |].
      intros Hlk. apply Hp in Hlk. lia.
    + intros rid r Hin. destruct (Hs _ _ Hin) as [Hlt Hnone]. split; [lia |].
      rewrite lookup_insert_ne; [done | lia].
    + intros rid c. rewrite lookup_insert. case_decide; [done | apply Hc].
  - destruct (pending s !! rid) as [[click |] |] eqn:Hlk; [| | exact HI].
    + eapply (Inv_settled _ rid _ _ _ HI Hlk); destruct r; simpl; eauto.
    + eapply (Inv_settled _ rid _ _ _ HI Hlk); destruct r; simpl; eauto.
Qed.

Lemma Inv_run tr w : Inv w → Inv (run tr w).
Proof.
  revert w. induction tr as [| e tr IH]; intros w HI; [done |].
  rewrite run_cons. apply IH. by apply Inv_step.
Qed.

Lemma Inv_reach tr st : Inv (run tr (boot st)).
Proof. apply Inv_run, Inv_boot. Qed.

(** *** Looking a response up *)

Lemma find_rid_none (l : list (nat * Response)) rid :
  rid ∉ l.*1 → List.find (fun p => bool_decide (fst p = rid)) l = None.
Proof.
  induction l as [| [rid' r] l IH]; simpl; [done |].
  rewrite not_elem_of_cons. intros [Hne Hnin].
  rewrite bool_decide_eq_false_2 by done. by apply IH.
Qed.

Lemma find_rid_last (l : list (nat * Response)) rid r :
  rid ∉ l.*1 →
  List.find (fun p => bool_decide (fst p = rid)) (l ++ [(rid, r)]) = Some (rid, r).
Proof.
  induction l as [| [rid' r'] l IH]; simpl.
  - intros _. by rewrite bool_decide_eq_true_2.
  - rewrite not_elem_of_cons. intros [Hne Hnin].
    rewrite bool_decide_eq_false_2 by done. by apply IH.
Qed.

Lemma response_of_None w rid :
  rid ∉ (sent (server w)).*1 → response_of rid w = None.
Proof. intros H. unfold response_of. by rewrite find_rid_none. Qed.

(** *** The store under [save] *)

Lemma collection_insert name doc st :
  collection name (insert name doc st)
  = collection name st ++ [ {| _id := Some (next_oid st); clickTime := clickTime doc |} ].
Proof. unfold collection, insert. simpl. by rewrite lookup_insert_eq. Qed.

Lemma save_new name doc st :
  _id doc = None → save name doc st = insert name doc st.
Proof. unfold save. by intros ->. Qed.

(** *** What one event does to the responses and to the collection *)

(** The collection is written by exactly one event: the success of a
    pending [save], which appends the click under a fresh identifier. *)
Lemma step_clicks e w :
  Inv w →
  clicks (step e w)
  = match e with
    | StoreDone rid Done =>
        match pending (server w) !! rid with
        | Some (SaveCb click) =>
            clicks w ++ [ {| _id := Some (next_oid (store w));
                              clickTime := clickTime click |} ]
        | _ => clicks w
        end
    | _ => clicks w
    end.
Proof.
  intros HI. destruct w as [s st]. destruct e as [r | req now | req | rid r]; unfold step; simpl.
  - by destruct (connecting s).
  - by destruct (listening s).
  - by destruct (listening s).
  - destruct (pending s !! rid) as [[click |] |] eqn:Hlk; destruct r; try done.
    unfold clicks. simpl.
    rewrite save_new by (eapply (inv_click _ HI); exact Hlk).
    apply collection_insert.
Qed.

(** Responses are written by store callbacks only (and by the router when
    a route throws, which [Inv] excludes). *)
Lemma step_sent e w :
  Inv w →
  sent (server (step e w))
  = match e with
    | StoreDone rid Done =>
        match pending (server w) !! rid with
        | Some (SaveCb click) => sent (server w) ++ [(rid, sendStatus 201)]
        | Some (ToArrayCb req) => sent (server w) ++ [(rid, send req (clicks w))]
        | None => sent (server w)
        end
    | _ => sent (server w)
    end.
Proof.
  intros HI. destruct w as [s st]. destruct e as [r | req now | req | rid r]; unfold step; simpl.
  - destruct (connecting s); [| done]. by destruct r.
  - destruct (listening s) eqn:Hlis; [| done].
    destruct (inv_listen _ HI Hlis) as [Hdb _]. simpl in Hdb.
    unfold post_clicked. simpl. by rewrite Hdb.
  - destruct (listening s) eqn:Hlis; [| done].
    destruct (inv_listen _ HI Hlis) as [Hdb _]. simpl in Hdb.
    unfold get_clicks. simpl. by rewrite Hdb.
  - destruct (pending s !! rid) as [[click |] |] eqn:Hlk; destruct r; done.
Qed.

(** An answer of GET /clicks is none of the 201. *)
Lemma filter_created_send rid req docs :
  filter (fun p : nat * Response => status (snd p) = 201) [(rid, send req docs)] = [].
Proof. unfold send. by destruct (fresh req docs). Qed.

Lemma step_clicks_created e w :
  Inv w →
  (length (clicks (step e w)) + created w
   = length (clicks w) + created (step e w))%nat.
Proof.
  intros HI. unfold created. rewrite step_clicks, step_sent by done.
  destruct e as [r | req now | req | rid [| err]]; try done.
  destruct (pending (server w) !! rid) as [[click | req] |]; try done.
  - rewrite filter_app, !length_app. simpl. lia.
  - rewrite filter_app, length_app, filter_created_send. simpl. lia.
Qed.

Lemma run_clicks_created tr w :
  Inv w →
  (length (clicks (run tr w)) + created w
   = length (clicks w) + created (run tr w))%nat.
Proof.
  revert w. induction tr as [| e tr IH]; intros w HI; [done |].
  rewrite run_cons.
  pose proof (step_clicks_created e w HI).
  pose proof (IH (step e w) (Inv_step e w HI)). lia.
Qed.

(** *** Requests that are never answered *)

Lemma abandoned_step e w rid : abandoned rid w → abandoned rid (step e w).
Proof.
  intros (Hlt & Hnone & Hnin). destruct w as [s st]. simpl in *.
  destruct e as [r | req now | req | rid' r]; unfold step, abandoned; simpl.
  - destruct (connecting s); [| done]. by destruct r.
  - destruct (listening s); [| done].
    unfold post_clicked. simpl. destruct (db s); simpl.
    + split; [lia |]. split; [| done]. rewrite lookup_insert_ne; [done | lia].
    + split; [lia |]. split; [done |]. rewrite fmap_app, not_elem_of_app.
      split; [done |]. simpl. rewrite list_elem_of_singleton. lia.
  - destruct (listening s); [| done].
    unfold get_clicks. simpl. destruct (db s); simpl.
    + split; [lia |]. split; [| done]. rewrite lookup_insert_ne; [done | lia].
    + split; [lia |]. split; [done |]. rewrite fmap_app, not_elem_of_app.
      split; [done |]. simpl. rewrite list_elem_of_singleton. lia.
  - destruct (pending s !! rid') as [p |] eqn:Hlk; [| done].
    assert (rid' ≠ rid) as Hne by congruence.
    destruct p as [click |], r as [| err]; simpl;
      (split; [done |]); (split; [by rewrite lookup_delete_ne |]); try done.
    all: rewrite fmap_app, not_elem_of_app; split; [done |]; simpl.
    all: rewrite list_elem_of_singleton; congruence.
Qed.

Lemma abandoned_run tr w rid : abandoned rid w → abandoned rid (run tr w).
Proof.
  revert w. induction tr as [| e tr IH]; intros w H; [done |].
  rewrite run_cons. by apply IH, abandoned_step.
Qed.

(** A callback stays registered until the driver calls it. *)
Lemma pending_kept e w rid p :
  Inv w → pending (server w) !! rid = Some p → (∀ r, e ≠ StoreDone rid r) →
  pending (server (step e w)) !! rid = Some p.
Proof.
  intros HI Hlk Hne. pose proof (inv_pending _ HI _ _ Hlk) as Hlt.
  destruct w as [s st]. simpl in *.
  destruct e as [r | req now | req | rid' r]; unfold step; simpl.
  - destruct (connecting s); [| done]. by destruct r.
  - destruct (listening s); [| done].
    unfold post_clicked. simpl. destruct (db s); simpl; [| done].
    rewrite lookup_insert_ne; [done | lia].
  - destruct (listening s); [| done].
    unfold get_clicks. simpl. destruct (db s); simpl; [| done].
    rewrite lookup_insert_ne; [done | lia].
  - assert (rid' ≠ rid) as Hne' by (intros ->; by eapply Hne).
    destruct (pending s !! rid') as [[click |] |]; [| | done];
      destruct r; simpl; by rewrite lookup_delete_ne.
Qed.

Lemma pending_kept_run tr w rid p :
  Inv w → pending (server w) !! rid = Some p →
  Forall (fun e => ∀ r, e ≠ StoreDone rid r) tr →
  pending (server (run tr w)) !! rid = Some p.
Proof.
  revert w. induction tr as [| e tr IH]; intros w HI Hlk Hall; [done |].
  apply Forall_cons in Hall as [He Hall]. rewrite run_cons.
  apply IH; [by apply Inv_step | by apply pending_kept | done].
Qed.

(** *** Listening *)

Lemma step_listening e w :
  listening (server (step e w)) = true →
  listening (server w) = true ∨ e = ConnectDone Done.
Proof.
  destruct w as [s st]. destruct e as [r | req now | req | rid r]; unfold step; simpl.
  - destruct (connecting s); [| by left]. destruct r; simpl; [by right | by left].
  - destruct (listening s) eqn:E; [by left | simpl; rewrite E; by left].
  - destruct (listening s) eqn:E; [by left | simpl; rewrite E; by left].
  - destruct (pending s !! rid) as [[click |] |]; destruct r; simpl; by left.
Qed.

Lemma dead_step e w : dead w → step e w = w.
Proof.
  intros (Hcon & Hlis & Hpend). destruct w as [s st]. simpl in *.
  destruct e; unfold step; simpl; rewrite ?Hcon, ?Hlis, ?Hpend, ?lookup_empty; done.
Qed.

Lemma dead_run tr w : dead w → run tr w = w.
Proof.
  intros H. induction tr as [| e tr IH]; [done |].
  rewrite run_cons, dead_step by done. exact IH.
Qed.

(** Until the connection attempt ends, nothing moves. *)
Lemma boot_waits tr st :
  (∀ r, ConnectDone r ∉ tr) → run tr (boot st) = boot st.
Proof.
  induction tr as [| e tr IH]; intros Hno; [done |].
  rewrite run_cons.
  assert (step e (boot st) = boot st) as ->.
  { destruct e as [r | | |]; try done. exfalso. apply (Hno r). by left. }
  apply IH. intros r Hin. apply (Hno r). by right.
Qed.

(** *** The routes *)

(** C1, as the server has it: when the store operation of a request to
    POST /clicked or GET /clicks fails, the callback prints the error and
    returns; no response is written for that request, then or at any later
    point of the run, and the store is as it was. *)
Theorem store_failure_is_logged_and_unanswered tr st rid p err tr' :
  let w := run tr (boot st) in
  pending (server w) !! rid = Some p →
  let w' := step (StoreDone rid (Failed err)) w in
  console (server w') = console (server w) ++ [LogErr err]
  ∧ sent (server w') = sent (server w)
  ∧ store w' = store w
  ∧ response_of rid (run tr' w') = None.
Proof.
  intros w Hlk w'.
  pose proof (Inv_reach tr st) as HI. fold w in HI.
  assert (Hshape : console (server w') = console (server w) ++ [LogErr err]
                   ∧ sent (server w') = sent (server w)
                   ∧ store w' = store w
                   ∧ pending (server w') = delete rid (pending (server w))
                   ∧ next_req (server w') = next_req (server w)).
  { subst w'. unfold step. rewrite Hlk. by destruct p. }
  destruct Hshape as (Hcon & Hsent & Hst & Hpend & Hnext).
  repeat split; try done.
  apply response_of_None. apply abandoned_run.
  repeat split.
  - rewrite Hnext. by eapply inv_pending.
  - rewrite Hpend. apply lookup_delete_eq.
  - rewrite Hsent. by eapply pending_unanswered.
Qed.

Lemma store_failure_is_logged_and_unanswered_witness :
  let w := run [ConnectDone Done; PostClicked bare 10] (boot empty_store) in
  let w' := step (StoreDone 0 (Failed boom)) w in
  pending (server w) !! 0%nat = Some (SaveCb {| _id := None; clickTime := 10 |})
  ∧ console (server w') = console (server w) ++ [LogErr boom]
  ∧ sent (server w') = sent (server w)
  ∧ store w' = store w
  ∧ response_of 0 (run [GetClicks bare; StoreDone 1 Done] w') = None.
Proof.
  split; [reflexivity |].
  apply (store_failure_is_logged_and_unanswered
           [ConnectDone Done; PostClicked bare 10] empty_store 0
           (SaveCb {| _id := None; clickTime := 10 |}) boom
           [GetClicks bare; StoreDone 1 Done]).
  reflexivity.
Defined.

(** C1 as written fails: a failed insert and a failed read each end with
    no response at all for their request, and with no callback left that
    could still write one. *)
Lemma store_failure_gets_no_response :
  let w := run [ConnectDone Done;
                PostClicked bare 10; StoreDone 0 (Failed boom);
                GetClicks bare; StoreDone 1 (Failed boom)] (boot empty_store) in
  next_req (server w) = 2%nat
  ∧ response_of 0 w = None
  ∧ response_of 1 w = None
  ∧ sent (server w) = []
  ∧ pending (server w) = ∅.
Proof. repeat split; reflexivity. Qed.

(** A request that meets its route while the server listens: the callback
    is registered under the next request number. *)
Lemma get_clicks_pending w req :
  Inv w → listening (server w) = true →
  pending (server (step (GetClicks req) w)) !! next_req (server w)
  = Some (ToArrayCb req).
Proof.
  intros HI Hlis. destruct (inv_listen _ HI Hlis) as [Hdb _].
  unfold step. rewrite Hlis. simpl. unfold get_clicks. simpl. rewrite Hdb. simpl.
  apply lookup_insert_eq.
Qed.

Lemma post_clicked_pending w req now :
  Inv w → listening (server w) = true →
  pending (server (step (PostClicked req now) w)) !! next_req (server w)
  = Some (SaveCb {| _id := None; clickTime := now |}).
Proof.
  intros HI Hlis. destruct (inv_listen _ HI Hlis) as [Hdb _].
  unfold step. rewrite Hlis. simpl. unfold post_clicked. simpl. rewrite Hdb. simpl.
  apply lookup_insert_eq.
Qed.

(** The answer a successful store callback writes is the answer of its request. *)
Lemma response_of_done w rid p :
  Inv w → pending (server w) !! rid = Some p →
  response_of rid (step (StoreDone rid Done) w)
  = Some match p with
         | SaveCb _ => sendStatus 201
         | ToArrayCb req => send req (clicks w)
         end.
Proof.
  intros HI Hlk. unfold response_of. rewrite step_sent by done. rewrite Hlk.
  pose proof (pending_unanswered _ _ _ HI Hlk) as Hfresh.
  destruct p; by rewrite find_rid_last.
Qed.

(** GET /clicks, answered: what [res.send] makes of the whole collection
    as it is when the read completes. *)
Lemma get_clicks_answer w req :
  Inv w → listening (server w) = true →
  response_of (next_req (server w))
    (run [GetClicks req; StoreDone (next_req (server w)) Done] w)
  = Some (send req (clicks w)).
Proof.
  intros HI Hlis.
  change (run [GetClicks req; StoreDone (next_req (server w)) Done] w)
    with (step (StoreDone (next_req (server w)) Done) (step (GetClicks req) w)).
  rewrite (response_of_done _ _ (ToArrayCb req));
    [| by apply Inv_step | by apply get_clicks_pending].
  by rewrite step_clicks.
Qed.

(** In a run from an empty collection there are as many documents as
    calls answered 201. *)
Lemma clicks_length_created tr st :
  collection "clicks" st = [] →
  length (clicks (run tr (boot st))) = created (run tr (boot st)).
Proof.
  intros Hempty.
  pose proof (run_clicks_created tr (boot st) (Inv_boot st)) as Hcount.
  unfold clicks at 2 in Hcount. simpl in Hcount.
  rewrite Hempty in Hcount. unfold created at 1 in Hcount. simpl in Hcount. lia.
Qed.

(** C2, as the server has it: from an empty [clicks] collection, after any
    run that leaves no insert in flight, a GET /clicks whose read succeeds
    is answered from a sequence with exactly as many elements as POST
    /clicked calls succeeded (were answered 201): with status 200 and that
    sequence, or, when the request is fresh for it, with status 304 and no
    body. *)
Theorem query_length_is_number_of_successful_posts tr st req :
  let w := run tr (boot st) in
  let rid := next_req (server w) in
  collection "clicks" st = [] →
  listening (server w) = true →
  no_insert_in_flight w →
  ∃ docs,
    length docs = created w
    ∧ response_of rid (run [GetClicks req; StoreDone rid Done] w)
      = Some (if fresh req docs
              then {| status := 304; body := Text EmptyString |}
              else {| status := 200; body := Json docs |}).
Proof.
  intros w rid Hempty Hlis _.
  pose proof (Inv_reach tr st) as HI. fold w in HI.
  exists (clicks w). split; [by apply clicks_length_created |].
  by apply get_clicks_answer.
Qed.

Lemma query_length_is_number_of_successful_posts_witness :
  let w := run (ConnectDone Done :: posts bare [10; 20; 20] 0) (boot empty_store) in
  let rid := next_req (server w) in
  (created w = 3%nat ∧ pending (server w) = ∅)
  ∧ ∃ docs,
      length docs = created w
      ∧ response_of rid (run [GetClicks bare; StoreDone rid Done] w)
        = Some (if fresh bare docs
                then {| status := 304; body := Text EmptyString |}
                else {| status := 200; body := Json docs |}).
Proof.
  split; [split; reflexivity |].
  apply (query_length_is_number_of_successful_posts
           (ConnectDone Done :: posts bare [10; 20; 20] 0) empty_store bare).
  - reflexivity.
  - reflexivity.
  - intros rid click.
    change (pending (server (run (ConnectDone Done :: posts bare [10; 20; 20] 0)
                                 (boot empty_store))))
      with (∅ : gmap nat Pending).
    rewrite lookup_empty. discriminate.
Defined.

(** C2 as written fails: after three successful calls of POST /clicked on
    an empty collection and with nothing else going on, a GET /clicks that
    carries [If-None-Match: *] is answered 304 with no body: no sequence,
    of length three or other, is returned. *)
Lemma conditional_query_returns_no_sequence :
  let w := run (ConnectDone Done :: posts bare [10; 20; 20] 0) (boot empty_store) in
  created w = 3%nat
  ∧ pending (server w) = ∅
  ∧ response_of 3 (run [GetClicks revalidating; StoreDone 3 Done] w)
    = Some {| status := 304; body := Text EmptyString |}
  ∧ ∀ docs, response_of 3 (run [GetClicks revalidating; StoreDone 3 Done] w)
            ≠ Some {| status := 200; body := Json docs |}.
Proof. repeat split; try reflexivity. intros docs. discriminate. Qed.

(** The same for [K] calls made one after the other. *)
Lemma posts_created req nows w :
  Inv w → listening (server w) = true →
  let w' := run (posts req nows (next_req (server w))) w in
  created w' = (created w + length nows)%nat
  ∧ listening (server w') = true.
Proof.
  revert w. induction nows as [| now nows IH]; intros w HI Hlis.
  { simpl. split; [lia | done]. }
  cbv zeta. cbn [posts]. rewrite !run_cons.
  set (w1 := step (PostClicked req now) w).
  assert (HI1 : Inv w1) by by apply Inv_step.
  assert (Hlk : pending (server w1) !! next_req (server w)
                = Some (SaveCb {| _id := None; clickTime := now |}))
    by by apply post_clicked_pending.
  set (w2 := step (StoreDone (next_req (server w)) Done) w1).
  assert (HI2 : Inv w2) by by apply Inv_step.
  assert (Hnext : next_req (server w2) = S (next_req (server w))).
  { subst w2. unfold step at 1. rewrite Hlk. simpl. subst w1.
    destruct (inv_listen _ HI Hlis) as [Hdb _].
    unfold step. rewrite Hlis. simpl. unfold post_clicked. simpl. by rewrite Hdb. }
  assert (Hlis2 : listening (server w2) = true).
  { subst w2. unfold step at 1. rewrite Hlk. simpl. subst w1.
    destruct (inv_listen _ HI Hlis) as [Hdb _].
    unfold step. rewrite Hlis. simpl. unfold post_clicked. simpl. by rewrite Hdb. }
  assert (Hc2 : created w2 = S (created w)).
  { unfold created. subst w2. rewrite step_sent by done. rewrite Hlk.
    subst w1. rewrite step_sent by done.
    rewrite filter_app, length_app. simpl. lia. }
  destruct (IH w2 HI2 Hlis2) as [Hc Hl]. rewrite Hnext in Hc, Hl.
  split; [| done]. rewrite Hc, Hc2. simpl. lia.
Qed.

Lemma sequential_posts_then_query st req nows :
  collection "clicks" st = [] →
  let w := run (ConnectDone Done :: posts req nows 0) (boot st) in
  let rid := next_req (server w) in
  ∃ docs,
    length docs = length nows
    ∧ response_of rid (run [GetClicks req; StoreDone rid Done] w)
      = Some (send req docs).
Proof.
  intros Hempty w rid.
  set (w0 := step (ConnectDone Done) (boot st)).
  assert (HI0 : Inv w0) by apply Inv_step, Inv_boot.
  destruct (posts_created req nows w0 HI0 eq_refl) as [Hc Hl].
  change (run (posts req nows (next_req (server w0))) w0) with w in Hc, Hl.
  assert (HI : Inv w) by apply Inv_reach.
  exists (clicks w). split; [| by apply get_clicks_answer].
  pose proof (run_clicks_created (posts req nows 0) w0 HI0) as Hcount.
  change (run (posts req nows 0) w0) with w in Hcount.
  rewrite Hc in Hcount. unfold clicks at 2 in Hcount. simpl in Hcount.
  rewrite Hempty in Hcount. change (created w0) with 0%nat in Hcount.
  simpl in Hcount. lia.
Qed.

(** C3: when the insert of a POST /clicked succeeds, the [clicks]
    collection grows by exactly one document, the click of that request;
    and over any further run the collection grows by exactly the number of
    calls answered 201 in it, equal clicks included. *)
Theorem successful_post_adds_exactly_one_record tr st rid click tr' :
  let w := run tr (boot st) in
  pending (server w) !! rid = Some (SaveCb click) →
  let w1 := step (StoreDone rid Done) w in
  clicks w1 = clicks w ++ [ {| _id := Some (next_oid (store w));
                               clickTime := clickTime click |} ]
  ∧ length (clicks w1) = S (length (clicks w))
  ∧ created w1 = S (created w)
  ∧ (length (clicks (run tr' w1)) + created w1
     = length (clicks w1) + created (run tr' w1))%nat.
Proof.
  intros w Hlk w1.
  pose proof (Inv_reach tr st) as HI. fold w in HI.
  assert (Hgrow : clicks w1 = clicks w ++ [ {| _id := Some (next_oid (store w));
                                               clickTime := clickTime click |} ]).
  { subst w1. rewrite step_clicks by done. by rewrite Hlk. }
  split; [done |]. split; [rewrite Hgrow, length_app; simpl; lia |]. split.
  - unfold created. subst w1. rewrite step_sent by done. rewrite Hlk.
    rewrite filter_app, length_app. simpl. lia.
  - pose proof (run_clicks_created tr' w1 (Inv_step _ _ HI)). lia.
Qed.

Lemma successful_post_adds_exactly_one_record_witness :
  let w := run [ConnectDone Done; PostClicked bare 10; StoreDone 0 Done;
                PostClicked bare 10] (boot empty_store) in
  let w1 := step (StoreDone 1 Done) w in
  clicks w = [ {| _id := Some 0%nat; clickTime := 10 |} ]
  ∧ clicks w1 = clicks w ++ [ {| _id := Some 1%nat; clickTime := 10 |} ]
  ∧ length (clicks w1) = S (length (clicks w))
  ∧ created w1 = S (created w)
  ∧ (length (clicks (run (posts bare [10%Z; 10%Z] 2) w1)) + created w1
     = length (clicks w1) + created (run (posts bare [10%Z; 10%Z] 2) w1))%nat.
Proof.
  split; [reflexivity |].
  apply (successful_post_adds_exactly_one_record
           [ConnectDone Done; PostClicked bare 10; StoreDone 0 Done;
            PostClicked bare 10] empty_store 1
           {| _id := None; clickTime := 10 |} (posts bare [10; 10] 2)).
  reflexivity.
Defined.

(** C4, as the server has it: when the insert of a POST /clicked
    succeeds, the response has status 201 and the text body that
    [sendStatus] gives it, the reason phrase of the status. *)
Theorem successful_post_is_answered_201_created tr st rid click :
  let w := run tr (boot st) in
  pending (server w) !! rid = Some (SaveCb click) →
  response_of rid (step (StoreDone rid Done) w)
  = Some {| status := 201; body := Text "Created" |}.
Proof.
  intros w Hlk. pose proof (Inv_reach tr st) as HI. fold w in HI.
  by rewrite (response_of_done _ _ _ HI Hlk).
Qed.

Lemma successful_post_is_answered_201_created_witness :
  pending (server (run [ConnectDone Done; PostClicked bare 10] (boot empty_store)))
    !! 0%nat = Some (SaveCb {| _id := None; clickTime := 10 |})
  ∧ response_of 0 (step (StoreDone 0 Done)
                     (run [ConnectDone Done; PostClicked bare 10] (boot empty_store)))
    = Some {| status := 201; body := Text "Created" |}.
Proof.
  split; [reflexivity |].
  apply (successful_post_is_answered_201_created
           [ConnectDone Done; PostClicked bare 10] empty_store 0
           {| _id := None; clickTime := 10 |}).
  reflexivity.
Defined.

(** C4 as written fails: the body of the 201 response is not empty. *)
Lemma created_response_has_a_body :
  let w := run [ConnectDone Done; PostClicked bare 10; StoreDone 0 Done]
               (boot empty_store) in
  response_of 0 w = Some {| status := 201; body := Text "Created" |}
  ∧ response_of 0 w ≠ Some {| status := 201; body := Text EmptyString |}.
Proof. split; [reflexivity | discriminate]. Qed.

(** C5: the click that POST /clicked stores carries the reading of the
    server's clock taken when the route runs.  Nothing the client sent
    enters: two requests handled at the same instant leave the same
    state, and whatever happens between the route and the completion of
    its insert, the document appended has that reading as its
    [clickTime]. *)
Theorem click_time_is_the_server_clock tr st req now tr' :
  let w := run tr (boot st) in
  let rid := next_req (server w) in
  listening (server w) = true →
  Forall (fun e => ∀ r, e ≠ StoreDone rid r) tr' →
  let w1 := step (PostClicked req now) w in
  let w2 := run tr' w1 in
  pending (server w1) !! rid = Some (SaveCb {| _id := None; clickTime := now |})
  ∧ (∀ req', step (PostClicked req' now) w = w1)
  ∧ clicks (step (StoreDone rid Done) w2)
    = clicks w2 ++ [ {| _id := Some (next_oid (store w2)); clickTime := now |} ].
Proof.
  intros w rid Hlis Hall w1 w2.
  pose proof (Inv_reach tr st) as HI. fold w in HI.
  assert (Hlk : pending (server w1) !! rid
                = Some (SaveCb {| _id := None; clickTime := now |}))
    by by apply post_clicked_pending.
  split; [done |]. split; [done |].
  assert (HI1 : Inv w1) by by apply Inv_step.
  pose proof (pending_kept_run tr' w1 rid _ HI1 Hlk Hall) as Hlk2. fold w2 in Hlk2.
  rewrite step_clicks by by apply Inv_run. by rewrite Hlk2.
Qed.

Lemma click_time_is_the_server_clock_witness :
  let w := run [ConnectDone Done] (boot empty_store) in
  let rid := next_req (server w) in
  let w1 := step (PostClicked forged 1700000000000) w in
  let w2 := run [GetClicks bare; PostClicked bare 1700000000500;
                 StoreDone 2 Done; StoreDone 1 Done] w1 in
  pending (server w1) !! rid
  = Some (SaveCb {| _id := None; clickTime := 1700000000000 |})
  ∧ (∀ req', step (PostClicked req' 1700000000000) w = w1)
  ∧ clicks (step (StoreDone rid Done) w2)
    = clicks w2 ++ [ {| _id := Some (next_oid (store w2));
                        clickTime := 1700000000000 |} ].
Proof.
  apply (click_time_is_the_server_clock
           [ConnectDone Done] empty_store forged 1700000000000
           [GetClicks bare; PostClicked bare 1700000000500;
            StoreDone 2 Done; StoreDone 1 Done]).
  - reflexivity.
  - repeat constructor; intros r [=].
Defined.




Lemma run_listening tr st :
  listening (server (run tr (boot st))) = true → ConnectDone Done ∈ tr.
Proof.
  induction tr as [| e tr IH] using rev_ind; [done |].
  rewrite run_snoc. intros Hlis. apply elem_of_app.
  apply step_listening in Hlis as [Hlis | ->].
  - left. by apply IH.
  - right. by apply list_elem_of_singleton.
Qed.

(** C7: the server listens only once the connection attempt has
    succeeded, and then [db] is set; while it does not listen no request
    has met a route, none is pending and none was answered; and when the
    connection attempt fails the server never listens, whatever follows. *)
Theorem listening_only_after_successful_connection tr st :
  let w := run tr (boot st) in
  (listening (server w) = true →
     ConnectDone Done ∈ tr ∧ db (server w) = Some Database)
  ∧ (listening (server w) = false →
     sent (server w) = [] ∧ pending (server w) = ∅)
  ∧ (∀ tr1 err tr2,
       tr = tr1 ++ ConnectDone (Failed err) :: tr2 →
       (∀ r, ConnectDone r ∉ tr1) →
       listening (server w) = false ∧ db (server w) = None).
Proof.
  intros w. pose proof (Inv_reach tr st) as HI. fold w in HI.
  split; [| split].
  - intros Hlis. split; [by apply (run_listening tr st) |].
    by destruct (inv_listen _ HI Hlis).
  - apply (inv_idle _ HI).
  - intros tr1 err tr2 -> Hno. subst w.
    rewrite run_app, run_cons, boot_waits by done.
    rewrite dead_run; [done |]. by repeat split.
Qed.

Lemma listening_only_after_successful_connection_witness :
  (let w := run [PostClicked bare 5; ConnectDone Done; GetClicks bare] (boot empty_store) in
   listening (server w) = true
   ∧ ConnectDone Done ∈ [PostClicked bare 5; ConnectDone Done; GetClicks bare]
   ∧ db (server w) = Some Database)
  ∧ (let w := run [PostClicked bare 5; GetClicks bare] (boot empty_store) in
     listening (server w) = false
     ∧ sent (server w) = [] ∧ pending (server w) = ∅)
  ∧ (let w := run ([PostClicked bare 5] ++ ConnectDone (Failed boom)
                     :: [ConnectDone Done; PostClicked bare 9; GetClicks bare])
                  (boot empty_store) in
     listening (server w) = false ∧ db (server w) = None).
Proof.
  split; [| split].
  - split; [reflexivity |].
    apply (listening_only_after_successful_connection
             [PostClicked bare 5; ConnectDone Done; GetClicks bare] empty_store).
    reflexivity.
  - split; [reflexivity |].
    apply (listening_only_after_successful_connection
             [PostClicked bare 5; GetClicks bare] empty_store).
    reflexivity.
  - apply (listening_only_after_successful_connection
             ([PostClicked bare 5] ++ ConnectDone (Failed boom)
                :: [ConnectDone Done; PostClicked bare 9; GetClicks bare])
             empty_store) with (tr1 := [PostClicked bare 5]) (err := boom)
             (tr2 := [ConnectDone Done; PostClicked bare 9; GetClicks bare]).
    + reflexivity.
    + intros r Hin. apply list_elem_of_singleton in Hin. discriminate.
Defined.

Lemma step_clicks_prefix e w : Inv w → clicks w `prefix_of` clicks (step e w).
Proof.
  intros HI. rewrite step_clicks by done.
  destruct e as [| | | rid [|]]; try done.
  destruct (pending (server w) !! rid) as [[|] |]; try done.
  by apply prefix_app_r.
Qed.

Lemma run_clicks_prefix tr w : Inv w → clicks w `prefix_of` clicks (run tr w).
Proof.
  revert w. induction tr as [| e tr IH]; intros w HI; [done |].
  rewrite run_cons. etrans; [by apply step_clicks_prefix |].
  by apply IH, Inv_step.
Qed.

(** C8: a stored click is never updated or deleted.  Over any run the
    [clicks] collection only gets new documents appended: every document
    stays at its place, unchanged. *)
Theorem stored_clicks_are_immutable tr st tr' :
  let w := run tr (boot st) in
  (∃ new, clicks (run tr' w) = clicks w ++ new)
  ∧ (∀ i d, clicks w !! i = Some d → clicks (run tr' w) !! i = Some d).
Proof.
  intros w. pose proof (Inv_reach tr st) as HI. fold w in HI.
  pose proof (run_clicks_prefix tr' w HI) as [new Hnew].
  split; [by exists new |].
  intros i d Hi. rewrite Hnew. by apply lookup_app_l_Some.
Qed.

Lemma stored_clicks_are_immutable_witness :
  let w := run (ConnectDone Done :: posts bare [10%Z; 20%Z] 0) (boot empty_store) in
  let w' := run [PostClicked bare 30; GetClicks bare; StoreDone 3 Done;
                 StoreDone 2 Done; PostClicked bare 40; StoreDone 4 (Failed boom)] w in
  clicks w !! 1%nat = Some {| _id := Some 1%nat; clickTime := 20 |}
  ∧ clicks w' !! 1%nat = Some {| _id := Some 1%nat; clickTime := 20 |}.
Proof.
  split; [reflexivity |].
  apply (stored_clicks_are_immutable
           (ConnectDone Done :: posts bare [10%Z; 20%Z] 0) empty_store
           [PostClicked bare 30; GetClicks bare; StoreDone 3 Done;
            StoreDone 2 Done; PostClicked bare 40; StoreDone 4 (Failed boom)]).
  reflexivity.
Defined.

End ServerSpec.

(** ** Properties of the client *)

Module ClientSpec.
Import Client.

Lemma poll_run_snoc tr e s : run (tr ++ [e]) s = step e (run tr s).
Proof. unfold run. by rewrite foldl_app. Qed.

Lemma poll_run_cons e tr s : run (e :: tr) s = run tr (step e s).
Proof. reflexivity. Qed.

Lemma ticks_snoc tr e :
  ticks (tr ++ [e]) = (ticks tr + match e with Tick => 1 | _ => 0 end)%nat.
Proof.
  induction tr as [| e' tr IH]; simpl.
  - destruct e; reflexivity.
  - destruct e'; rewrite IH; reflexivity.
Qed.

Lemma cadence_snoc delay n :
  cadence delay (S n) = cadence delay n ++ [delay * Z.of_nat (S n)].
Proof. unfold cadence. rewrite seq_S, map_app. reflexivity. Qed.

Lemma length_cadence delay n : length (cadence delay n) = n.
Proof. unfold cadence. by rewrite length_map, length_seq. Qed.

(** *** One event at a time *)

(** The chains never touch the timer or issue a fetch. *)
Lemma clicks_chain_frame r s :
  interval (clicks_chain r s) = interval s
  ∧ clickable (clicks_chain r s) = clickable s
  ∧ next_fire (clicks_chain r s) = next_fire s
  ∧ fired (clicks_chain r s) = fired s
  ∧ inflight (clicks_chain r s) = inflight s
  ∧ next_fetch (clicks_chain r s) = next_fetch s
  ∧ fetched (clicks_chain r s) = fetched s.
Proof.
  unfold clicks_chain. destruct r as [e | status body]; [done |].
  destruct (ok status); [| done]. destruct body as [e | data]; [done |].
  destruct (length_of data); destruct (document s !! "counter"); done.
Qed.

Lemma clicked_chain_frame r s :
  document (clicked_chain r s) = document s
  ∧ interval (clicked_chain r s) = interval s
  ∧ clickable (clicked_chain r s) = clickable s
  ∧ next_fire (clicked_chain r s) = next_fire s
  ∧ fired (clicked_chain r s) = fired s
  ∧ inflight (clicked_chain r s) = inflight s
  ∧ next_fetch (clicked_chain r s) = next_fetch s
  ∧ fetched (clicked_chain r s) = fetched s.
Proof.
  unfold clicked_chain. destruct r as [e | status body]; [done |].
  by destruct (ok status).
Qed.

(** The counter paragraph may be rewritten, it is never removed. *)
Lemma clicks_chain_counter r s :
  is_Some (document s !! "counter") →
  is_Some (document (clicks_chain r s) !! "counter").
Proof.
  intros Hc. pose proof Hc as [txt Hdoc].
  unfold clicks_chain. destruct r as [e | status body]; [done |].
  destruct (ok status); [| done]. destruct body as [e | data]; [done |].
  destruct (length_of data); rewrite ?Hdoc; simpl;
    rewrite ?lookup_insert_eq, ?Hdoc; done.
Qed.

Lemma Steady_load page :
  is_Some (page !! "myButton") → is_Some (page !! "counter") → Steady (load page).
Proof.
  intros [b Hb] Hc. unfold load. rewrite Hb. split; simpl; done.
Qed.

Lemma Steady_step e s : Steady s → Steady (step e s).
Proof.
  intros [Hint Hcl Hcnt Hnf Hin]. destruct e as [| | fid r]; unfold step.
  - rewrite Hcl. split; simpl; try done.
    intros fid c. rewrite lookup_insert. case_decide; [lia |].
    intros Hlk. apply Hin in Hlk. lia.
  - rewrite Hint. split; simpl; try done.
    + rewrite Hnf, length_app. simpl. lia.
    + intros fid c. rewrite lookup_insert. case_decide; [lia |].
      intros Hlk. apply Hin in Hlk. lia.
  - destruct (inflight s !! fid) as [[|] |] eqn:Hlk; [| | by split].
    + destruct (clicked_chain_frame r (settle fid s))
        as (Hd & Hi & Hc & Hn & Hf & Hfl & Hnx & Hft).
      split; rewrite ?Hd, ?Hi, ?Hc, ?Hn, ?Hf, ?Hfl, ?Hnx; simpl; try done.
      intros fid' c. rewrite lookup_delete_Some. intros [_ Hlk']. by eapply Hin.
    + destruct (clicks_chain_frame r (settle fid s))
        as (Hi & Hc & Hn & Hf & Hfl & Hnx & Hft).
      split; rewrite ?Hi, ?Hc, ?Hn, ?Hf, ?Hfl, ?Hnx; simpl; try done.
      * by apply clicks_chain_counter.
      * intros fid' c. rewrite lookup_delete_Some. intros [_ Hlk']. by eapply Hin.
Qed.

Lemma Steady_run tr s : Steady s → Steady (run tr s).
Proof.
  revert s. induction tr as [| e tr IH]; intros s HI; [done |].
  rewrite poll_run_cons. by apply IH, Steady_step.
Qed.

(** The timer fires at the multiples of its delay, and the polls are the
    fetches it made: one per firing. *)
Lemma run_fired page tr :
  is_Some (page !! "myButton") → is_Some (page !! "counter") →
  fired (run tr (load page)) = cadence 1000 (ticks tr)
  ∧ polls (run tr (load page)) = ticks tr.
Proof.
  intros Hb Hc. induction tr as [| e tr [IHf IHp]] using rev_ind.
  { unfold load. destruct Hb as [b ->]. done. }
  rewrite poll_run_snoc, ticks_snoc.
  pose proof (Steady_run tr _ (Steady_load page Hb Hc)) as HI.
  set (s := run tr (load page)) in *.
  unfold polls in *. destruct e as [| | fid r]; unfold step.
  - rewrite (inv_clickable _ HI). simpl.
    rewrite filter_app, length_app, Nat.add_0_r. simpl. split; [done | lia].
  - rewrite (inv_interval _ HI). simpl.
    rewrite filter_app, length_app. simpl. split; [| lia].
    rewrite Nat.add_1_r, cadence_snoc, (inv_next_fire _ HI), IHf, length_cadence.
    done.
  - rewrite Nat.add_0_r. destruct (inflight s !! fid) as [[|] |]; [| | done].
    + destruct (clicked_chain_frame r (settle fid s))
        as (_ & _ & _ & _ & -> & _ & _ & ->). done.
    + destruct (clicks_chain_frame r (settle fid s))
        as (_ & _ & _ & -> & _ & _ & ->). done.
Qed.

(** What a failed poll does: the error reaches the [catch], which prints it. *)
Lemma clicks_chain_failed r s :
  failed r = true → clicks_chain r s = log (LogErr (failure r)) s.
Proof.
  unfold failed, failure, clicks_chain. destruct r as [e | status [e | data]]; try done.
  - by destruct (ok status).
  - by destruct (ok status).
Qed.

(** C9: the timer is registered with a delay of 1000 ms and stays so
    through every run, successes and failures alike: it has fired at
    1000, 2000, ... and each firing made exactly one fetch, GET /clicks.
    When a poll resolves to a 2xx response carrying a sequence, the
    counter shows the length of that sequence; when a poll fails, the
    error is printed and the timer and its next firing are as before. *)
Theorem poll_every_second_count_on_success_log_on_failure page tr :
  is_Some (page !! "myButton") → is_Some (page !! "counter") →
  let s := run tr (load page) in
  interval s = Some 1000
  ∧ fired s = cadence 1000 (ticks tr)
  ∧ polls s = ticks tr
  ∧ (fired (step Tick s) = fired s ++ [1000 * Z.of_nat (S (ticks tr))]
     ∧ fetched (step Tick s) = fetched s ++ [poll_fetch]
     ∧ inflight (step Tick s) !! next_fetch s = Some Clicks)
  ∧ (∀ fid status items,
       inflight s !! fid = Some Clicks → ok status = true →
       counter (step (Settled fid (Responded status (Parsed (JArr items)))) s)
       = Some ("Button was clicked " +:+ decimal (Z.of_nat (length items)) +:+ " times"))
  ∧ (∀ fid r,
       inflight s !! fid = Some Clicks → failed r = true →
       let s' := step (Settled fid r) s in
       console s' = console s ++ [LogErr (failure r)]
       ∧ interval s' = Some 1000
       ∧ next_fire s' = next_fire s
       ∧ fetched (step Tick s') = fetched s ++ [poll_fetch]).
Proof.
  intros Hb Hc s.
  pose proof (Steady_run tr _ (Steady_load page Hb Hc)) as HI. fold s in HI.
  destruct (run_fired page tr Hb Hc) as [Hf Hp]. fold s in Hf, Hp.
  pose proof (inv_interval _ HI) as Hint.
  split; [done |]. split; [done |]. split; [done |]. split; [| split].
  - unfold step. rewrite Hint. simpl.
    rewrite (inv_next_fire _ HI), Hf, length_cadence, lookup_insert_eq. done.
  - intros fid status items Hlk Hok. unfold step. rewrite Hlk.
    unfold clicks_chain. rewrite Hok. simpl.
    destruct (inv_counter _ HI) as [txt ->]. unfold counter. simpl.
    by rewrite lookup_insert_eq.
  - intros fid r Hlk Hfail s'.
    assert (Hs' : s' = log (LogErr (failure r)) (settle fid s)).
    { subst s'. unfold step. rewrite Hlk. by apply clicks_chain_failed. }
    rewrite Hs'. repeat split; try done.
    unfold step. simpl. rewrite Hint. done.
Qed.

Lemma poll_every_second_count_on_success_log_on_failure_witness :
  let s := run [Tick; Click; Settled 0 (Responded 503 (Unparsable not_json)); Tick]
               (load index_html) in
  fired s = [1000; 2000]
  ∧ interval s = Some 1000
  ∧ polls s = 2%nat
  ∧ counter (step (Settled 2 (Responded 200 (Parsed (JArr [a_click; a_click; a_click])))) s)
    = Some "Button was clicked 3 times"
  ∧ console (step (Settled 2 (NetworkError offline)) s)
    = console s ++ [LogErr offline].
Proof.
  pose proof (poll_every_second_count_on_success_log_on_failure index_html
                [Tick; Click; Settled 0 (Responded 503 (Unparsable not_json)); Tick])
    as H.
  destruct H as (Hint & Hfired & Hpolls & _ & Hok & Hfail);
    [by eexists | by eexists |].
  split; [exact Hfired |]. split; [exact Hint |]. split; [exact Hpolls |]. split.
  - apply (Hok 2%nat 200 [a_click; a_click; a_click]); reflexivity.
  - apply (Hfail 2%nat (NetworkError offline)); reflexivity.
Defined.

(** C10: a failed poll (the fetch rejected, a status outside 2xx, or a
    body that is not JSON) leaves the page as it was, the counter
    paragraph included; and the only event that changes the counter is a
    poll settling with a 2xx response whose body parsed. *)
Theorem failed_poll_leaves_counter_unchanged s :
  (∀ fid r, failed r = true →
     document (step (Settled fid r) s) = document s
     ∧ counter (step (Settled fid r) s) = counter s)
  ∧ (∀ e, counter (step e s) ≠ counter s →
       ∃ fid status data,
         e = Settled fid (Responded status (Parsed data))
         ∧ ok status = true
         ∧ inflight s !! fid = Some Clicks).
Proof.
  split.
  - intros fid r Hfail.
    assert (Hdoc : document (step (Settled fid r) s) = document s).
    { unfold step. destruct (inflight s !! fid) as [[|] |]; [| | done].
      - by destruct (clicked_chain_frame r (settle fid s)) as [-> _].
      - by rewrite clicks_chain_failed. }
    split; [done |]. unfold counter. by rewrite Hdoc.
  - intros e Hne. destruct e as [| | fid r]; unfold step in Hne.
    + destruct (clickable s); done.
    + destruct (interval s); done.
    + destruct (inflight s !! fid) as [[|] |] eqn:Hlk; [| | done].
      * unfold counter in Hne.
        destruct (clicked_chain_frame r (settle fid s)) as [Hd _].
        rewrite Hd in Hne. done.
      * destruct r as [err | status [err | data]]; [done | |].
        { simpl in Hne. by destruct (ok status). }
        destruct (ok status) eqn:Hok.
        { by exists fid, status, data. }
        simpl in Hne. rewrite Hok in Hne. done.
Qed.

Lemma failed_poll_leaves_counter_unchanged_witness :
  let s := run [Tick; Settled 0 (Responded 200 (Parsed (JArr [a_click])));
                Tick; Tick; Tick]
               (load index_html) in
  counter s = Some "Button was clicked 1 times"
  ∧ counter (step (Settled 1 (Responded 500 (Parsed (JArr [])))) s) = counter s
  ∧ counter (step (Settled 2 (NetworkError offline)) s) = counter s
  ∧ counter (step (Settled 3 (Responded 200 (Unparsable not_json))) s) = counter s.
Proof.
  split; [reflexivity |].
  split; [| split];
    apply (failed_poll_leaves_counter_unchanged
             (run [Tick; Settled 0 (Responded 200 (Parsed (JArr [a_click])));
                   Tick; Tick; Tick] (load index_html)));
    reflexivity.
Defined.

End ClientSpec.

(** ** Further properties of the server *)

Module ServerFacts.
Import Mongo Server ServerSpec Observed.

(** *** Every request is accounted for *)

Lemma errors_log l w st :
  errors {| server := log l (server w); store := st |}
  = (errors w + if is_error l then 1 else 0)%nat.
Proof.
  unfold errors. simpl. rewrite List.filter_app, length_app. simpl.
  destruct (is_error l); simpl; lia.
Qed.

Lemma balanced_step e w : Inv w → balanced w → balanced (step e w).
Proof.
  intros HI Hb. destruct w as [s st]. unfold balanced in *. simpl in *.
  destruct e as [r | req now | req | rid r]; unfold step; simpl.
  - destruct (connecting s) eqn:Hcon; [| simpl; by rewrite Hcon].
    destruct (listening s) eqn:Hlis.
    { destruct (inv_listen _ HI Hlis) as [_ Hc]. simpl in Hc. congruence. }
    destruct (inv_idle _ HI Hlis) as [Hsent Hpend]. simpl in Hsent, Hpend.
    destruct Hb as [Hnext Herr].
    destruct r as [| err]; simpl.
    + unfold errors in *. simpl in *.
      rewrite List.filter_app, length_app. simpl.
      rewrite Hnext, Hsent, Hpend, map_size_empty, Herr. done.
    + rewrite ?Hlis. split; [done |]. unfold errors in *. simpl in *.
      rewrite List.filter_app, length_app. simpl. lia.
  - destruct (listening s) eqn:Hlis; [| simpl; by rewrite Hlis].
    destruct (inv_listen _ HI Hlis) as [Hdb _]. simpl in Hdb.
    unfold post_clicked. simpl. rewrite Hdb. simpl. rewrite ?Hlis.
    rewrite map_size_insert_None.
    2:{ destruct (pending s !! next_req s) eqn:E; [| done].
        apply (inv_pending _ HI) in E. simpl in E. lia. }
    unfold errors in *. simpl in *.
    rewrite !List.filter_app, !length_app. simpl. lia.
  - destruct (listening s) eqn:Hlis; [| simpl; by rewrite Hlis].
    destruct (inv_listen _ HI Hlis) as [Hdb _]. simpl in Hdb.
    unfold get_clicks. simpl. rewrite Hdb. simpl. rewrite ?Hlis.
    rewrite map_size_insert_None.
    2:{ destruct (pending s !! next_req s) eqn:E; [| done].
        apply (inv_pending _ HI) in E. simpl in E. lia. }
    unfold errors in *. simpl in *. lia.
  - destruct (pending s !! rid) as [p |] eqn:Hlk.
    2:{ simpl. done. }
    assert (Hlis : listening s = true).
    { destruct (listening s) eqn:E; [done |].
      destruct (inv_idle _ HI E) as [_ He]. simpl in He.
      rewrite He, lookup_empty in Hlk. done. }
    rewrite Hlis in Hb.
    assert (Hsize : size (pending s) = S (size (delete rid (pending s)))).
    { rewrite map_size_delete, Hlk.
      assert (size (pending s) ≠ 0%nat); [| lia].
      intros H0. apply map_size_empty_inv in H0. rewrite H0, lookup_empty in Hlk. done. }
    destruct p as [click |], r as [| err]; simpl; rewrite ?Hlis;
      unfold errors in *; simpl in *;
      rewrite ?List.filter_app, ?length_app; simpl; lia.
Qed.

Lemma balanced_reach tr st : balanced (run tr (boot st)).
Proof.
  induction tr as [| e tr IH] using rev_ind.
  - split; done.
  - rewrite run_snoc. apply balanced_step; [apply Inv_reach | done].
Qed.

(** X1: while the server listens, every request that reached a route is in
    exactly one of three places: its callback is still pending, it was
    answered, or its error was printed.  No request is answered twice. *)
Theorem every_request_is_pending_answered_or_logged tr st :
  let w := run tr (boot st) in
  listening (server w) = true →
  next_req (server w)
  = (size (pending (server w)) + length (sent (server w)) + errors w)%nat
  ∧ NoDup (sent (server w)).*1
  ∧ (∀ rid, is_Some (pending (server w) !! rid) → response_of rid w = None).
Proof.
  intros w Hlis. pose proof (balanced_reach tr st) as Hb. fold w in Hb.
  unfold balanced in Hb. rewrite Hlis in Hb.
  pose proof (Inv_reach tr st) as HI. fold w in HI.
  split; [done |]. split; [apply (inv_once _ HI) |].
  intros rid [p Hp]. apply response_of_None. by eapply pending_unanswered.
Qed.

Lemma every_request_is_pending_answered_or_logged_witness :
  let w := run [ConnectDone Done; PostClicked bare 10; GetClicks bare;
                PostClicked bare 20; StoreDone 1 Done; StoreDone 0 (Failed boom)]
               (boot empty_store) in
  listening (server w) = true
  ∧ next_req (server w) = 3%nat
  ∧ next_req (server w)
    = (size (pending (server w)) + length (sent (server w)) + errors w)%nat.
Proof.
  split; [reflexivity |]. split; [reflexivity |].
  apply (every_request_is_pending_answered_or_logged
           [ConnectDone Done; PostClicked bare 10; GetClicks bare;
            PostClicked bare 20; StoreDone 1 Done; StoreDone 0 (Failed boom)]
           empty_store).
  reflexivity.
Defined.

(** *** What the server answers *)

(** X2: every response written for a request to one of the two routes,
    POST /clicked and GET /clicks, comes from a success path: 201 with the
    reason phrase, 200 with a sequence of documents, or 304 with no body
    for a GET that is fresh.  Neither route ever sends an error status. *)
Theorem only_success_responses_are_sent tr st rid r :
  (rid, r) ∈ sent (server (run tr (boot st))) →
  (r = {| status := 201; body := Text "Created" |}
   ∨ (∃ docs, r = {| status := 200; body := Json docs |})
   ∨ r = {| status := 304; body := Text EmptyString |})
  ∧ status r < 400.
Proof.
  revert rid r. induction tr as [| e tr IH] using rev_ind; intros rid r.
  { intros H. inversion H. }
  rewrite run_snoc, step_sent by apply Inv_reach.
  destruct e as [| | | rid' [| err]]; try apply IH.
  destruct (pending (server (run tr (boot st))) !! rid') as [[click | req] |];
    try apply IH.
  - rewrite elem_of_app, list_elem_of_singleton.
    intros [Hin | [= -> ->]]; [by eapply IH |]. split; [by left | done].
  - rewrite elem_of_app, list_elem_of_singleton.
    intros [Hin | [= -> ->]]; [by eapply IH |]. unfold send.
    destruct (fresh req _); (split; [| done]); right; [by right | left; by eexists].
Qed.

Lemma only_success_responses_are_sent_witness :
  let w := run [ConnectDone Done; PostClicked bare 10; GetClicks bare;
                StoreDone 0 (Failed boom); StoreDone 1 Done] (boot empty_store) in
  sent (server w) = [(1%nat, {| status := 200; body := Json [] |})]
  ∧ ({| status := 200; body := Json [] |} = {| status := 201; body := Text "Created" |}
     ∨ (∃ docs, {| status := 200; body := Json [] |} = {| status := 200; body := Json docs |})
     ∨ {| status := 200; body := Json [] |} = {| status := 304; body := Text EmptyString |})
  ∧ 200 < 400.
Proof.
  split; [reflexivity |].
  apply (only_success_responses_are_sent
           [ConnectDone Done; PostClicked bare 10; GetClicks bare;
            StoreDone 0 (Failed boom); StoreDone 1 Done] empty_store 1%nat
           {| status := 200; body := Json [] |}).
  apply list_elem_of_singleton. reflexivity.
Defined.

(** *** What the server writes *)

Lemma collection_save_other name doc st other :
  other ≠ name → collection other (save name doc st) = collection other st.
Proof.
  intros Hne. unfold save, insert, collection.
  destruct (_id doc); simpl; by rewrite lookup_insert_ne.
Qed.

(** X3: the server writes to the [clicks] collection only: over any run,
    from any state, every other collection of the database is as it was. *)
Theorem other_collections_are_untouched tr w name :
  name ≠ "clicks" →
  collection name (store (run tr w)) = collection name (store w).
Proof.
  intros Hne. revert w. induction tr as [| e tr IH]; intros w; [done |].
  rewrite run_cons, IH. destruct w as [s st].
  destruct e as [r | req now | req | rid r]; unfold step; simpl.
  - by destruct (connecting s).
  - by destruct (listening s).
  - by destruct (listening s).
  - destruct (pending s !! rid) as [[click |] |]; try done.
    destruct r; simpl; [| done]. by apply collection_save_other.
Qed.

Lemma other_collections_are_untouched_witness :
  let st := {| collections := <["users" := [ {| _id := Some 7%nat; clickTime := 1 |} ]]> ∅;
               next_oid := 8%nat |} in
  collection "users"
    (store (run (ConnectDone Done :: posts bare [10%Z; 20%Z] 0) (boot st)))
  = collection "users" (store (boot st)).
Proof.
  apply (other_collections_are_untouched
           (ConnectDone Done :: posts bare [10%Z; 20%Z] 0)).
  discriminate.
Defined.

(** *** Where the stored timestamps come from *)

Lemma readings_snoc tr e :
  readings (tr ++ [e])
  = readings tr ++ match e with
                   | PostClicked _ now => [now]
                   | _ => []
                   end.
Proof.
  induction tr as [| e' tr IH]; simpl.
  - destruct e; reflexivity.
  - destruct e'; rewrite IH; reflexivity.
Qed.

(** The click a pending insert holds was built from a clock reading of the run. *)
Lemma pending_click_reading tr st rid click :
  pending (server (run tr (boot st))) !! rid = Some (SaveCb click) →
  clickTime click ∈ readings tr.
Proof.
  revert rid click. induction tr as [| e tr IH] using rev_ind; intros rid click.
  { simpl. by rewrite lookup_empty. }
  rewrite run_snoc, readings_snoc.
  pose proof (Inv_reach tr st) as HI.
  set (w := run tr (boot st)) in *. destruct w as [s t] eqn:Hw. simpl in *.
  rewrite elem_of_app.
  destruct e as [r | req now | req | rid' r]; unfold step; simpl.
  - destruct (connecting s); [| by left; eapply IH].
    destruct r; simpl; intros H; left; by eapply IH.
  - destruct (listening s); [| by left; eapply IH].
    unfold post_clicked. simpl. destruct (db s); simpl; [| by left; eapply IH].
    rewrite lookup_insert. case_decide.
    + intros [= <-]. right. by left.
    + intros Hlk. left. by eapply IH.
  - destruct (listening s); [| by left; eapply IH].
    unfold get_clicks. simpl. destruct (db s); simpl; [| by left; eapply IH].
    rewrite lookup_insert. case_decide; [done |].
    intros Hlk. left. by eapply IH.
  - destruct (pending s !! rid') as [[c |] |]; [| | by left; eapply IH];
      destruct r; simpl; rewrite lookup_delete_Some; intros [_ Hlk];
      left; by eapply IH.
Qed.

(** X6: every document of the [clicks] collection either was there when
    the server started or carries, as its [clickTime], the clock reading of
    a POST /clicked request of the run. *)
Theorem stored_times_are_readings_of_the_run tr st d :
  d ∈ clicks (run tr (boot st)) →
  d ∈ collection "clicks" st ∨ clickTime d ∈ readings tr.
Proof.
  revert d. induction tr as [| e tr IH] using rev_ind; intros d; [by left |].
  rewrite run_snoc, readings_snoc, step_clicks by apply Inv_reach.
  assert (Hold : d ∈ clicks (run tr (boot st)) →
                 d ∈ collection "clicks" st
                 ∨ clickTime d ∈ readings tr
                     ++ match e with
                        | PostClicked _ now => [now]
                        | _ => []
                        end).
  { intros Hin. destruct (IH d Hin); [by left |]. right. apply elem_of_app. by left. }
  destruct e as [| | | rid [| err]]; try done.
  destruct (pending (server (run tr (boot st))) !! rid) as [[click |] |] eqn:Hlk;
    try done.
  rewrite elem_of_app, list_elem_of_singleton. intros [Hin | ->]; [by apply Hold |].
  right. rewrite app_nil_r. simpl. by eapply pending_click_reading.
Qed.

Lemma stored_times_are_readings_of_the_run_witness :
  let tr := [ConnectDone Done; PostClicked forged 10; PostClicked bare 20;
             StoreDone 1 Done; StoreDone 0 (Failed boom)] in
  clicks (run tr (boot empty_store)) = [ {| _id := Some 0%nat; clickTime := 20 |} ]
  ∧ ({| _id := Some 0%nat; clickTime := 20 |} ∈ collection "clicks" empty_store
     ∨ 20 ∈ readings tr).
Proof.
  split; [reflexivity |].
  apply (stored_times_are_readings_of_the_run
           [ConnectDone Done; PostClicked forged 10; PostClicked bare 20;
            StoreDone 1 Done; StoreDone 0 (Failed boom)] empty_store
           {| _id := Some 0%nat; clickTime := 20 |}).
  apply list_elem_of_singleton. reflexivity.
Defined.

(** One call of POST /clicked that succeeds, start to end. *)
Lemma post_round req now w :
  Inv w → listening (server w) = true →
  let w2 := run [PostClicked req now; StoreDone (next_req (server w)) Done] w in
  listening (server w2) = true
  ∧ next_req (server w2) = S (next_req (server w))
  ∧ clicks w2 = clicks w ++ [ {| _id := Some (next_oid (store w)); clickTime := now |} ].
Proof.
  intros HI Hlis w2. subst w2.
  change (run [PostClicked req now; StoreDone (next_req (server w)) Done] w)
    with (step (StoreDone (next_req (server w)) Done) (step (PostClicked req now) w)).
  set (w1 := step (PostClicked req now) w).
  assert (HI1 : Inv w1) by by apply Inv_step.
  assert (Hlk : pending (server w1) !! next_req (server w)
                = Some (SaveCb {| _id := None; clickTime := now |}))
    by by apply post_clicked_pending.
  assert (Hw1 : listening (server w1) = true
                ∧ next_req (server w1) = S (next_req (server w))
                ∧ store w1 = store w).
  { subst w1. destruct (inv_listen _ HI Hlis) as [Hdb _].
    unfold step. rewrite Hlis. simpl. unfold post_clicked. simpl. by rewrite Hdb. }
  destruct Hw1 as (Hl1 & Hn1 & Hs1).
  split; [| split].
  - unfold step. by rewrite Hlk.
  - unfold step. by rewrite Hlk.
  - rewrite step_clicks by done. rewrite Hlk. simpl.
    unfold clicks. by rewrite Hs1.
Qed.

Lemma posts_times req nows w :
  Inv w → listening (server w) = true →
  let w' := run (posts req nows (next_req (server w))) w in
  listening (server w') = true
  ∧ clickTime <$> clicks w' = (clickTime <$> clicks w) ++ nows.
Proof.
  revert w. induction nows as [| now nows IH]; intros w HI Hlis.
  { simpl. by rewrite app_nil_r. }
  cbv zeta. cbn [posts].
  change (PostClicked req now :: StoreDone (next_req (server w)) Done
            :: posts req nows (S (next_req (server w))))
    with ([PostClicked req now; StoreDone (next_req (server w)) Done]
            ++ posts req nows (S (next_req (server w)))).
  rewrite run_app.
  destruct (post_round req now w HI Hlis) as (Hl2 & Hn2 & Hc2).
  set (w2 := run [PostClicked req now; StoreDone (next_req (server w)) Done] w) in *.
  assert (HI2 : Inv w2) by by apply Inv_run.
  destruct (IH w2 HI2 Hl2) as [Hl Ht]. rewrite Hn2 in Hl, Ht.
  split; [done |]. rewrite Ht, Hc2, fmap_app, <- app_assoc. done.
Qed.

(** X7: what was recorded is what is read back.  After calls of POST
    /clicked made one after the other on an empty collection, each
    succeeding, a GET /clicks without validators is answered 200 with one
    document per call, and the [clickTime] values of the answer are, up to
    their order, the clock readings of the calls. *)
Theorem query_returns_the_recorded_times st post get nows :
  collection "clicks" st = [] →
  (∀ docs, fresh get docs = false) →
  let w := run (ConnectDone Done :: posts post nows 0) (boot st) in
  let rid := next_req (server w) in
  ∃ docs,
    response_of rid (run [GetClicks get; StoreDone rid Done] w)
    = Some {| status := 200; body := Json docs |}
    ∧ clickTime <$> docs ≡ₚ nows.
Proof.
  intros Hempty Hstale w rid.
  set (w0 := step (ConnectDone Done) (boot st)).
  assert (HI0 : Inv w0) by apply Inv_step, Inv_boot.
  destruct (posts_times post nows w0 HI0 eq_refl) as [Hl Ht].
  change (run (posts post nows (next_req (server w0))) w0) with w in Hl, Ht.
  assert (HI : Inv w) by apply Inv_reach.
  exists (clicks w). split.
  - subst rid. rewrite get_clicks_answer by done. unfold send. by rewrite Hstale.
  - rewrite Ht. unfold clicks. simpl. by rewrite Hempty.
Qed.

Lemma query_returns_the_recorded_times_witness :
  let w := run (ConnectDone Done :: posts forged [30%Z; 10%Z; 10%Z] 0) (boot empty_store) in
  let rid := next_req (server w) in
  ∃ docs,
    response_of rid (run [GetClicks bare; StoreDone rid Done] w)
    = Some {| status := 200; body := Json docs |}
    ∧ clickTime <$> docs ≡ₚ [30; 10; 10].
Proof.
  apply (query_returns_the_recorded_times empty_store forged bare [30%Z; 10%Z; 10%Z]);
    reflexivity.
Defined.

End ServerFacts.

(** ** Further properties of the client *)

Module ClientFacts.
Import Client ClientSpec Observed.

(** *** What one event changes *)

(** No event removes the listener or the timer, and none changes its delay. *)
Lemma step_registrations e s :
  clickable (step e s) = clickable s ∧ interval (step e s) = interval s.
Proof.
  destruct e as [| | fid r]; unfold step.
  - destruct (clickable s) eqn:E; simpl; by rewrite ?E.
  - destruct (interval s) eqn:E; simpl; by rewrite ?E.
  - destruct (inflight s !! fid) as [[|] |]; [| | done].
    + by destruct (clicked_chain_frame r (settle fid s)) as (_ & -> & -> & _).
    + by destruct (clicks_chain_frame r (settle fid s)) as (-> & -> & _).
Qed.

(** The fetch calls an event makes, and the numbers they get. *)
Lemma step_fetched e s :
  fetched (step e s)
  = fetched s ++ match e with
                 | Click => if clickable s then [click_fetch] else []
                 | Tick => match interval s with
                           | Some _ => [poll_fetch]
                           | None => []
                           end
                 | Settled _ _ => []
                 end
  ∧ (length (fetched s) = next_fetch s →
     length (fetched (step e s)) = next_fetch (step e s)).
Proof.
  destruct e as [| | fid r]; unfold step.
  - destruct (clickable s); simpl; rewrite ?app_nil_r, ?length_app; simpl;
      (split; [done | lia]).
  - destruct (interval s); simpl; rewrite ?app_nil_r, ?length_app; simpl;
      (split; [done | lia]).
  - rewrite app_nil_r. destruct (inflight s !! fid) as [[|] |]; [| | done].
    + by destruct (clicked_chain_frame r (settle fid s))
        as (_ & _ & _ & _ & _ & _ & -> & ->).
    + by destruct (clicks_chain_frame r (settle fid s))
        as (_ & _ & _ & _ & _ & -> & ->).
Qed.

Lemma presses_snoc tr e :
  presses (tr ++ [e]) = (presses tr + match e with Click => 1 | _ => 0 end)%nat.
Proof.
  induction tr as [| e' tr IH]; simpl.
  - destruct e; reflexivity.
  - destruct e'; rewrite IH; reflexivity.
Qed.

Lemma registered_run page tr :
  is_Some (page !! "myButton") →
  clickable (run tr (load page)) = true ∧ interval (run tr (load page)) = Some 1000.
Proof.
  intros [b Hb]. induction tr as [| e tr [IHc IHi]] using rev_ind.
  - unfold load. by rewrite Hb.
  - rewrite poll_run_snoc.
    destruct (step_registrations e (run tr (load page))) as [-> ->]. done.
Qed.

(** X8: on a page with the button, every click makes exactly one fetch,
    POST /clicked, after printing its line; the timer makes the polls; and
    the script never calls anything else: the fetches of a run are one POST
    /clicked per click and one GET /clicks per firing of the timer. *)
Theorem one_post_per_click_and_nothing_else page tr :
  is_Some (page !! "myButton") →
  let s := run tr (load page) in
  posted s = presses tr
  ∧ polls s = ticks tr
  ∧ length (fetched s) = (presses tr + ticks tr)%nat
  ∧ (∀ f, f ∈ fetched s → f = click_fetch ∨ f = poll_fetch)
  ∧ fetched (step Click s) = fetched s ++ [click_fetch]
  ∧ console (step Click s) = console s ++ [LogStr "button was clicked"].
Proof.
  intros Hb s.
  assert (Hrun : posted s = presses tr ∧ polls s = ticks tr
                 ∧ length (fetched s) = (presses tr + ticks tr)%nat
                 ∧ (∀ f, f ∈ fetched s → f = click_fetch ∨ f = poll_fetch)).
  { subst s. induction tr as [| e tr (IHp & IHt & IHl & IHf)] using rev_ind.
    { unfold load. destruct Hb as [b ->]. repeat split; try done.
      intros f H. inversion H. }
    rewrite poll_run_snoc, presses_snoc, ticks_snoc.
    destruct (registered_run page tr Hb) as [Hc Hi].
    unfold posted, polls in *.
    destruct (step_fetched e (run tr (load page))) as [-> _].
    rewrite Hc, Hi, !filter_app, !length_app.
    destruct e as [| | fid r]; simpl; rewrite ?app_nil_r;
      (split; [lia |]); (split; [lia |]); (split; [lia |]); try done.
    - intros f. rewrite elem_of_app, list_elem_of_singleton.
      intros [Hin | ->]; [by apply IHf | by left].
    - intros f. rewrite elem_of_app, list_elem_of_singleton.
      intros [Hin | ->]; [by apply IHf | by right]. }
  destruct Hrun as (Hp & Ht & Hl & Hf).
  destruct (registered_run page tr Hb) as [Hc _]. fold s in Hc.
  repeat split; try done.
  - unfold step. by rewrite Hc.
  - unfold step. by rewrite Hc.
Qed.

Lemma one_post_per_click_and_nothing_else_witness :
  let tr := [Click; Tick; Settled 0 (NetworkError offline); Click;
             Settled 2 (Responded 500 (Unparsable not_json)); Tick] in
  let s := run tr (load index_html) in
  posted s = 2%nat ∧ polls s = 2%nat ∧ length (fetched s) = 4%nat.
Proof.
  pose proof (one_post_per_click_and_nothing_else index_html
                [Click; Tick; Settled 0 (NetworkError offline); Click;
                 Settled 2 (Responded 500 (Unparsable not_json)); Tick]) as H.
  destruct H as (Hp & Ht & Hl & _); [by eexists |].
  split; [exact Hp |]. split; [exact Ht | exact Hl].
Defined.

(** *** Responses never trigger requests *)

(** X9: the client does not retry and does not react to a response with a
    request: while only promises settle, however they settle, no fetch is
    made, and the timer, its delay and its next firing are as they were. *)
Theorem settling_makes_no_request tr s :
  Forall (fun e => ∃ fid r, e = Settled fid r) tr →
  fetched (run tr s) = fetched s
  ∧ next_fetch (run tr s) = next_fetch s
  ∧ interval (run tr s) = interval s
  ∧ next_fire (run tr s) = next_fire s
  ∧ fired (run tr s) = fired s.
Proof.
  revert s. induction tr as [| e tr IH]; intros s Hall; [done |].
  apply Forall_cons in Hall as [(fid & r & ->) Hall].
  rewrite poll_run_cons.
  destruct (IH (step (Settled fid r) s) Hall) as (-> & -> & -> & -> & ->).
  unfold step. destruct (inflight s !! fid) as [[|] |]; [| | done].
  - by destruct (clicked_chain_frame r (settle fid s))
      as (_ & -> & _ & -> & -> & _ & -> & ->).
  - by destruct (clicks_chain_frame r (settle fid s))
      as (-> & _ & -> & -> & _ & -> & ->).
Qed.

Lemma settling_makes_no_request_witness :
  let s := run [Click; Tick; Tick] (load index_html) in
  let tr := [Settled 0 (Responded 500 (Unparsable not_json));
             Settled 1 (NetworkError offline);
             Settled 2 (Responded 404 (Parsed JNull))] in
  fetched (run tr s) = fetched s
  ∧ next_fetch (run tr s) = next_fetch s
  ∧ interval (run tr s) = interval s
  ∧ next_fire (run tr s) = next_fire s
  ∧ fired (run tr s) = fired s.
Proof.
  apply (settling_makes_no_request
           [Settled 0 (Responded 500 (Unparsable not_json));
            Settled 1 (NetworkError offline);
            Settled 2 (Responded 404 (Parsed JNull))]
           (run [Click; Tick; Tick] (load index_html))).
  repeat constructor; by do 2 eexists.
Defined.

(** *** Pages that lack an element *)

(** X12: on a page without the button the script stops at its second
    statement: no listener and no timer are registered, so nothing ever
    happens: no fetch, no line printed, no change of the page. *)
Theorem without_the_button_nothing_runs page tr :
  page !! "myButton" = None →
  run tr (load page) = load page
  ∧ interval (load page) = None
  ∧ clickable (load page) = false
  ∧ fetched (run tr (load page)) = []
  ∧ console (run tr (load page)) = [LogStr "Client-side code running"].
Proof.
  intros Hb.
  assert (Hload : interval (load page) = None ∧ clickable (load page) = false
                  ∧ inflight (load page) = ∅ ∧ fetched (load page) = []
                  ∧ console (load page) = [LogStr "Client-side code running"]).
  { unfold load. by rewrite Hb. }
  destruct Hload as (Hi & Hc & Hin & Hf & Hcon).
  assert (Hrun : run tr (load page) = load page).
  { induction tr as [| e tr IH]; [done |].
    rewrite poll_run_cons.
    assert (step e (load page) = load page) as ->; [| done].
    destruct e as [| | fid r]; unfold step; rewrite ?Hi, ?Hc, ?Hin, ?lookup_empty; done. }
  rewrite Hrun. done.
Qed.

Lemma without_the_button_nothing_runs_witness :
  let page : gmap string string := <["counter" := "Loading button click data."]> ∅ in
  let tr := [Click; Tick; Settled 0 (Responded 200 (Parsed (JArr []))); Tick] in
  run tr (load page) = load page
  ∧ interval (load page) = None
  ∧ clickable (load page) = false
  ∧ fetched (run tr (load page)) = []
  ∧ console (run tr (load page)) = [LogStr "Client-side code running"].
Proof.
  apply (without_the_button_nothing_runs
           (<["counter" := "Loading button click data."]> ∅)
           [Click; Tick; Settled 0 (Responded 200 (Parsed (JArr []))); Tick]).
  reflexivity.
Defined.

Lemma step_document_without_counter e s :
  counter s = None → document (step e s) = document s.
Proof.
  unfold counter. intros Hc. destruct e as [| | fid r]; unfold step.
  - by destruct (clickable s).
  - by destruct (interval s).
  - destruct (inflight s !! fid) as [[|] |]; [| | done].
    + by destruct (clicked_chain_frame r (settle fid s)) as [-> _].
    + unfold clicks_chain. destruct r as [e | status [e | data]]; try done.
      { by destruct (ok status). }
      destruct (ok status); [| done]. simpl. rewrite Hc.
      by destruct (length_of data).
Qed.

Lemma document_fixed_without_counter tr s :
  counter s = None → document (run tr s) = document s.
Proof.
  revert s. induction tr as [| e tr IH]; intros s Hc; [done |].
  rewrite poll_run_cons.
  pose proof (step_document_without_counter e s Hc) as Hstep.
  rewrite IH; [done |]. unfold counter. by rewrite Hstep.
Qed.

(** X13: on a page without the counter paragraph a poll cannot show its
    result: however it settles, exactly one error is printed, and over any
    run the page stays as it is.  The error is that of the failure for a
    failed poll, the one of reading [length] for a body that is [null], and
    otherwise the one of writing to a missing element. *)
Theorem without_the_counter_every_poll_ends_in_the_catch s tr fid r :
  counter s = None →
  inflight s !! fid = Some Clicks →
  document (run tr s) = document s
  ∧ console (step (Settled fid r) s) = console s ++ [LogErr (caught_without_counter r)].
Proof.
  intros Hc Hlk. split; [by apply document_fixed_without_counter |].
  unfold step. rewrite Hlk. unfold clicks_chain, caught_without_counter, failed, failure.
  unfold counter in Hc.
  destruct r as [e | status [e | data]]; try done.
  - by destruct (ok status).
  - destruct (ok status); simpl; [| done]. rewrite Hc.
    by destruct (length_of data).
Qed.

Lemma without_the_counter_every_poll_ends_in_the_catch_witness :
  let page : gmap string string := <["myButton" := "Click me!"]> ∅ in
  let s := run [Tick; Tick] (load page) in
  let r := Responded 200 (Parsed (JArr [a_click; a_click])) in
  let r' := Responded 200 (Parsed JNull) in
  (document (run [Settled 0 r; Tick; Click] s) = document s
   ∧ console (step (Settled 0 r) s) = console s ++ [LogErr null_element])
  ∧ (document (run [Settled 1 r'] s) = document s
     ∧ console (step (Settled 1 r') s) = console s ++ [LogErr null_has_no_properties]).
Proof.
  split.
  - apply (without_the_counter_every_poll_ends_in_the_catch
             (run [Tick; Tick] (load (<["myButton" := "Click me!"]> ∅)))
             [Settled 0 (Responded 200 (Parsed (JArr [a_click; a_click]))); Tick; Click]
             0%nat (Responded 200 (Parsed (JArr [a_click; a_click]))));
      reflexivity.
  - apply (without_the_counter_every_poll_ends_in_the_catch
             (run [Tick; Tick] (load (<["myButton" := "Click me!"]> ∅)))
             [Settled 1 (Responded 200 (Parsed JNull))]
             1%nat (Responded 200 (Parsed JNull)));
      reflexivity.
Defined.

(** *** Bodies and orders the poll does not expect *)

(** A poll that resolves to a 2xx response with a JSON body, on a page with
    the counter paragraph. *)
Lemma poll_parsed s fid status data :
  is_Some (counter s) → inflight s !! fid = Some Clicks → ok status = true →
  step (Settled fid (Responded status (Parsed data))) s
  = match length_of data with
    | Throws e => log (LogErr e) (settle fid s)
    | v => set_innerHTML "counter" (counter_text v) (settle fid s)
    end.
Proof.
  intros [txt Hc] Hlk Hok. unfold step. rewrite Hlk.
  unfold clicks_chain. rewrite Hok. simpl. unfold counter in Hc. rewrite Hc.
  by destruct (length_of data).
Qed.

(** X14: a 2xx poll whose JSON body is not a sequence.  For [null] reading
    [length] throws: the error is printed and the page is unchanged.  For a
    number, a boolean or an object without a [length] field the counter
    reads [Button was clicked undefined times]. *)
Theorem poll_of_a_body_that_is_no_sequence s fid status :
  is_Some (counter s) → inflight s !! fid = Some Clicks → ok status = true →
  (let s' := step (Settled fid (Responded status (Parsed JNull))) s in
   document s' = document s
   ∧ console s' = console s ++ [LogErr null_has_no_properties])
  ∧ (∀ data,
       (match data with
        | JNum _ | JBool _ => True
        | JObj fields => field "length" fields = None
        | _ => False
        end) →
       counter (step (Settled fid (Responded status (Parsed data))) s)
       = Some "Button was clicked undefined times").
Proof.
  intros Hc Hlk Hok. split.
  - cbv zeta. by rewrite poll_parsed.
  - intros data Hdata. rewrite poll_parsed by done. unfold counter.
    destruct data as [| b | n | str | items | fields]; try done; simpl.
    + by rewrite lookup_insert_eq.
    + by rewrite lookup_insert_eq.
    + rewrite Hdata. simpl. by rewrite lookup_insert_eq.
Qed.

Lemma poll_of_a_body_that_is_no_sequence_witness :
  let s := run [Tick] (load index_html) in
  (let s' := step (Settled 0 (Responded 200 (Parsed JNull))) s in
   document s' = document s
   ∧ console s' = console s ++ [LogErr null_has_no_properties])
  ∧ counter (step (Settled 0 (Responded 200 (Parsed a_click))) s)
    = Some "Button was clicked undefined times".
Proof.
  pose proof (poll_of_a_body_that_is_no_sequence
                (run [Tick] (load index_html)) 0%nat 200) as H.
  destruct H as [Hnull Hother]; [by eexists | reflexivity | reflexivity |].
  split; [exact Hnull |]. apply (Hother a_click). reflexivity.
Defined.

(** X15: the counter shows the poll that settled last, not the one that was
    made last.  When two polls are in flight and both resolve to sequences,
    the text after both is the length of the second to settle, whichever of
    them was fetched first: a late answer to an old poll overwrites a newer
    count. *)
Theorem counter_shows_the_poll_that_settled_last s fa fb sa sb items_a items_b :
  is_Some (counter s) →
  inflight s !! fa = Some Clicks → inflight s !! fb = Some Clicks → fa ≠ fb →
  ok sa = true → ok sb = true →
  counter (run [Settled fa (Responded sa (Parsed (JArr items_a)));
                Settled fb (Responded sb (Parsed (JArr items_b)))] s)
  = Some ("Button was clicked " +:+ decimal (Z.of_nat (length items_b)) +:+ " times").
Proof.
  intros Hc Ha Hb Hne Hoka Hokb.
  change (run [Settled fa (Responded sa (Parsed (JArr items_a)));
               Settled fb (Responded sb (Parsed (JArr items_b)))] s)
    with (step (Settled fb (Responded sb (Parsed (JArr items_b))))
            (step (Settled fa (Responded sa (Parsed (JArr items_a)))) s)).
  rewrite (poll_parsed s fa) by done. simpl length_of. cbv iota.
  rewrite poll_parsed; simpl.
  - unfold counter. simpl. by rewrite lookup_insert_eq.
  - unfold counter. simpl. rewrite lookup_insert_eq. by eexists.
  - by rewrite lookup_delete_ne.
  - done.
Qed.

Lemma counter_shows_the_poll_that_settled_last_witness :
  let s := run [Tick; Tick] (load index_html) in
  counter (run [Settled 1 (Responded 200 (Parsed (JArr [a_click; a_click])));
                Settled 0 (Responded 200 (Parsed (JArr [a_click])))] s)
  = Some ("Button was clicked " +:+ decimal (Z.of_nat (length [a_click])) +:+ " times").
Proof.
  apply (counter_shows_the_poll_that_settled_last
           (run [Tick; Tick] (load index_html)) 1%nat 0%nat 200 200
           [a_click; a_click] [a_click]);
    try reflexivity; [by eexists | discriminate].
Defined.

End ClientFacts.

(** ** Server and client together *)

Module EndToEnd.
Import Mongo Link.

(** X16: the page shows the number of recorded clicks.  When the clicks
    collection started empty and no insert is in flight, a GET /clicks that
    is not fresh and whose read succeeds is answered, and that answer,
    delivered to a poll in flight on a page with the counter paragraph,
    makes the counter read the number of POST /clicked calls the server
    answered 201. *)
Theorem the_page_shows_the_number_of_recorded_clicks
    parse render tr st req (cs : Client.State) fid :
  let w := Server.run tr (Server.boot st) in
  let rid := Server.next_req (Server.server w) in
  collection "clicks" st = [] →
  Server.listening (Server.server w) = true →
  Server.no_insert_in_flight w →
  Server.fresh req (Server.clicks w) = false →
  is_Some (Client.counter cs) →
  Client.inflight cs !! fid = Some Client.Clicks →
  ∃ r,
    Server.response_of rid
      (Server.run [Server.GetClicks req; Server.StoreDone rid Done] w) = Some r
    ∧ Client.counter (Client.step (Client.Settled fid (wire parse render r)) cs)
      = Some ("Button was clicked " +:+ decimal (Z.of_nat (Server.created w)) +:+ " times").
Proof.
  intros w rid Hempty Hlis _ Hstale Hc Hlk.
  pose proof (ServerSpec.Inv_reach tr st) as HI. fold w in HI.
  exists (Server.send req (Server.clicks w)).
  split; [by apply ServerSpec.get_clicks_answer |].
  unfold wire, Server.send. rewrite Hstale. cbn [Server.body Server.status].
  rewrite ClientFacts.poll_parsed by done. simpl.
  unfold Client.counter. simpl. rewrite lookup_insert_eq, length_fmap.
  pose proof (ServerSpec.clicks_length_created tr st Hempty) as Hcount.
  fold w in Hcount. by rewrite Hcount.
Qed.

Lemma the_page_shows_the_number_of_recorded_clicks_witness :
  let w := Server.run (Server.ConnectDone Done
                         :: Server.posts Server.bare [10%Z; 20%Z] 0)
                      (Server.boot Server.empty_store) in
  let rid := Server.next_req (Server.server w) in
  let cs := Client.run [Client.Tick] (Client.load Client.index_html) in
  (Server.created w = 2%nat ∧ Server.pending (Server.server w) = ∅)
  ∧ ∃ r,
      Server.response_of rid
        (Server.run [Server.GetClicks Server.bare; Server.StoreDone rid Done] w) = Some r
      ∧ Client.counter (Client.step (Client.Settled 0 (wire no_json as_object r)) cs)
        = Some ("Button was clicked " +:+ decimal (Z.of_nat (Server.created w)) +:+ " times").
Proof.
  split; [split; reflexivity |].
  apply (the_page_shows_the_number_of_recorded_clicks no_json as_object
           (Server.ConnectDone Done :: Server.posts Server.bare [10%Z; 20%Z] 0)
           Server.empty_store Server.bare
           (Client.run [Client.Tick] (Client.load Client.index_html)) 0%nat).
  - reflexivity.
  - reflexivity.
  - intros rid click.
    change (Server.pending
              (Server.server
                 (Server.run (Server.ConnectDone Done
                                :: Server.posts Server.bare [10%Z; 20%Z] 0)
                             (Server.boot Server.empty_store))))
      with (∅ : gmap nat Server.Pending).
    rewrite lookup_empty. discriminate.
  - reflexivity.
  - by eexists.
  - reflexivity.
Defined.

(** X17: a recorded click is reported as recorded.  The answer to a POST
    /clicked whose insert succeeded, delivered to the fetch of the click
    listener, makes it print [click was recorded]; the body of that answer
    is not read, and the page is not touched. *)
Theorem a_recorded_click_is_reported_as_recorded
    parse render tr st rid click (cs : Client.State) fid :
  let w := Server.run tr (Server.boot st) in
  Server.pending (Server.server w) !! rid = Some (Server.SaveCb click) →
  Client.inflight cs !! fid = Some Client.Clicked →
  ∃ r,
    Server.response_of rid (Server.step (Server.StoreDone rid Done) w) = Some r
    ∧ (let cs' := Client.step (Client.Settled fid (wire parse render r)) cs in
       Client.console cs'
       = Client.console cs ++ [Client.LogStr "click was recorded"]
       ∧ Client.document cs' = Client.document cs).
Proof.
  intros w Hp Hlk.
  pose proof (ServerSpec.Inv_reach tr st) as HI. fold w in HI.
  exists (Server.sendStatus 201).
  split; [by rewrite (ServerSpec.response_of_done _ _ _ HI Hp) |].
  unfold Client.step. rewrite Hlk. done.
Qed.

Lemma a_recorded_click_is_reported_as_recorded_witness :
  let w := Server.run [Server.ConnectDone Done; Server.PostClicked Server.bare 10]
                      (Server.boot Server.empty_store) in
  let cs := Client.run [Client.Click] (Client.load Client.index_html) in
  ∃ r,
    Server.response_of 0 (Server.step (Server.StoreDone 0 Done) w) = Some r
    ∧ (let cs' := Client.step (Client.Settled 0 (wire no_json as_object r)) cs in
       Client.console cs'
       = Client.console cs ++ [Client.LogStr "click was recorded"]
       ∧ Client.document cs' = Client.document cs).
Proof.
  apply (a_recorded_click_is_reported_as_recorded no_json as_object
           [Server.ConnectDone Done; Server.PostClicked Server.bare 10]
           Server.empty_store 0%nat {| _id := None; clickTime := 10 |}
           (Client.run [Client.Click] (Client.load Client.index_html)) 0%nat);
    reflexivity.
Defined.

End EndToEnd.
